(** * pysloc: counting Python source lines of code

    A shallow embedding of [pysloc.py] (the line classifier, the ignore
    matcher, the tree walker, the file counter and the aggregator) together
    with the parts of the Python runtime they call: [str] methods,
    [posixpath], [fnmatch], [os.walk] and [open].

    Conventions.
    - A Python [str] is a list of Unicode code points ([N]).
    - [os.path] is [posixpath] and [fnmatch] is the one of CPython 3.11, so
      [os.path.normcase] is the identity and [relpath] raises [ValueError]
      for an empty path only; the current directory is a parameter [cwd].
    - The file system is a finite tree of directories and files without
      symbolic links, in which every directory can be listed; a file is
      described by what iterating over it produces (lines, then the end of
      the file or an [OSError]); a file that cannot be opened is a file
      too.
    - A generator is the list of what it yields, in order; [os.walk] and
      the loop body that prunes its [dirnames] in place are one function.
    - Python [int] is [Z]; a [dict] keyed by paths is a [gmap].
    - The log records of the core functions are not modelled;
      [log_sloc_summary] and [main] are modelled by the messages they pass
      to [log.info] themselves.

    The definitions come first, the properties after them, then the claims
    of the specification, C1 to C10, and further properties of the code,
    X1 to X20. *)

From Stdlib Require Import ZArith NArith List Bool Lia String Ascii.
From Stdlib Require Import DecimalString Sorted.
From stdpp Require Import gmap.

Import ListNotations.

Abbreviation char := N (only parsing).
Abbreviation str := (list N) (only parsing).

(** Literals: an ASCII literal seen as a Python string. *)
Definition py (s : string) : str :=
  List.map N_of_ascii (list_ascii_of_string s).

Definition chr_hash : char := 35%N.      (* '#' *)
Definition chr_slash : char := 47%N.     (* '/' *)
Definition chr_dot : char := 46%N.       (* '.' *)
Definition chr_star : char := 42%N.      (* '*' *)
Definition chr_question : char := 63%N.  (* '?' *)
Definition chr_lbracket : char := 91%N.  (* '[' *)
Definition chr_rbracket : char := 93%N.  (* ']' *)
Definition chr_bang : char := 33%N.      (* '!' *)
Definition chr_hyphen : char := 45%N.    (* '-' *)

(** ** Python [str] methods *)

Module pystr.

(** [Py_UNICODE_ISSPACE]: the characters [str.strip()] removes and for
    which [str.isspace()] holds. *)
Definition isspace (c : char) : bool :=
  ((9 <=? c) && (c <=? 13) || (28 <=? c) && (c <=? 32)
   || (c =? 133) || (c =? 160) || (c =? 5760)
   || (8192 <=? c) && (c <=? 8202)
   || (c =? 8232) || (c =? 8233) || (c =? 8239) || (c =? 8287)
   || (c =? 12288))%N.

(** Truth value of a string or a list: [bool(s)]; [not s] is its
    negation. *)
Definition truthy {A} (s : list A) : bool :=
  match s with [] => false | _ :: _ => true end.

Fixpoint lstrip (s : str) : str :=
  match s with
  | [] => []
  | c :: s' => if isspace c then lstrip s' else s
  end.

Definition rstrip (s : str) : str := rev (lstrip (rev s)).

(** [s.strip()] *)
Definition strip (s : str) : str := rstrip (lstrip s).

(** [s.startswith(prefix)] *)
Fixpoint startswith (s prefix : str) : bool :=
  match prefix, s with
  | [], _ => true
  | _ :: _, [] => false
  | p :: prefix', c :: s' => (c =? p)%N && startswith s' prefix'
  end.

(** [s.endswith(suffix)] *)
Definition endswith (s suffix : str) : bool :=
  startswith (rev s) (rev suffix).

(** [s.split(sep, maxsplit)] for a one-character separator.  A negative
    [maxsplit] (Python's default [-1]) means no limit. *)
Fixpoint split (sep : char) (maxsplit : Z) (s : str) : list str :=
  match s with
  | [] => [[]]
  | c :: s' =>
      if (c =? sep)%N && negb (maxsplit =? 0)%Z
      then [] :: split sep (maxsplit - 1) s'
      else match split sep maxsplit s' with
           | piece :: pieces => (c :: piece) :: pieces
           | [] => [[c]]
           end
  end.

(** [sep.join(pieces)] for a one-character separator. *)
Fixpoint join_with (sep : char) (pieces : list str) : str :=
  match pieces with
  | [] => []
  | [p] => p
  | p :: rest => p ++ sep :: join_with sep rest
  end.

(** [s.rfind(c)]: index of the last occurrence, [-1] when there is none. *)
Fixpoint rfind (c : char) (s : str) : Z :=
  match s with
  | [] => (-1)%Z
  | d :: s' =>
      let r := rfind c s' in
      if (0 <=? r)%Z then (r + 1)%Z
      else if (d =? c)%N then 0%Z else (-1)%Z
  end.

(** [c in s] *)
Definition contains (c : char) (s : str) : bool :=
  existsb (N.eqb c) s.

End pystr.

Import pystr.

(** ** The line classifier *)

(** [is_code_line(line)], lines 61-77. *)
Definition is_code_line (line : str) : bool :=
  let stripped := strip line in
  if negb (truthy stripped) then false
  else if startswith stripped [chr_hash] then false
  else
    let code_part := strip (nth 0 (split chr_hash 1 stripped) []) in
    truthy code_part.

(** The classifier as the specification words it: look at the first
    character that is not whitespace. *)
Definition first_non_space (line : str) : option char :=
  List.find (fun c => negb (isspace c)) line.

(** The portion of a string before its first ['#'] (all of it when there is
    none). *)
Fixpoint before_hash (s : str) : str :=
  match s with
  | [] => []
  | c :: s' => if (c =? chr_hash)%N then [] else c :: before_hash s'
  end.

Definition is_code_line_spec (line : str) : bool :=
  if negb (truthy (strip line))
     || match first_non_space line with
        | Some c => (c =? chr_hash)%N
        | None => false
        end
  then false
  else truthy (strip (before_hash (strip line))).

(** ** [posixpath] *)

Module posixpath.

Definition sep : str := [chr_slash].
Definition curdir : str := [chr_dot].
Definition pardir : str := [chr_dot; chr_dot].

Definition str_eqb (a b : str) : bool := bool_decide (a = b).

(** [isabs(s)] *)
Definition isabs (s : str) : bool := startswith s sep.

(** [join(a, b)]: one step of the loop of [join(a, *p)]. *)
Definition join (path b : str) : str :=
  if startswith b sep then b
  else if negb (truthy path) || endswith path sep then path ++ b
  else path ++ sep ++ b.

(** [join(a, *p)] *)
Definition join_all (a : str) (p : list str) : str := fold_left join p a.

(** [basename(p)] *)
Definition basename (p : str) : str :=
  let i := (rfind chr_slash p + 1)%Z in
  skipn (Z.to_nat i) p.

(** The loop of [normpath] over the components; [new_comps] is kept in
    reverse (its head is [new_comps[-1]]). *)
Fixpoint normpath_comps (initial_slashes : nat) (new_comps : list str)
         (comps : list str) : list str :=
  match comps with
  | [] => rev new_comps
  | comp :: comps' =>
      if str_eqb comp [] || str_eqb comp curdir
      then normpath_comps initial_slashes new_comps comps'
      else if negb (str_eqb comp pardir)
              || ((initial_slashes =? 0)%nat && negb (truthy new_comps))
              || match new_comps with
                 | last :: _ => str_eqb last pardir
                 | [] => false
                 end
      then normpath_comps initial_slashes (comp :: new_comps) comps'
      else match new_comps with
           | _ :: popped => normpath_comps initial_slashes popped comps'
           | [] => normpath_comps initial_slashes new_comps comps'
           end
  end.

(** [normpath(path)] *)
Definition normpath (path : str) : str :=
  if str_eqb path [] then curdir
  else
    let initial_slashes :=
      if startswith path sep then
        if startswith path (sep ++ sep) && negb (startswith path (sep ++ sep ++ sep))
        then 2%nat else 1%nat
      else 0%nat in
    let comps := normpath_comps initial_slashes [] (split chr_slash (-1) path) in
    let path := join_with chr_slash comps in
    let path := List.repeat chr_slash initial_slashes ++ path in
    if truthy path then path else curdir.

(** [abspath(path)]; [cwd] is what [os.getcwd()] returns. *)
Definition abspath (cwd path : str) : str :=
  if negb (isabs path) then normpath (join cwd path) else normpath path.

(** Length of the longest common prefix of two component lists:
    [len(commonprefix([start_list, path_list]))]. *)
Fixpoint commonprefix_len (a b : list str) : nat :=
  match a, b with
  | x :: a', y :: b' => if str_eqb x y then S (commonprefix_len a' b') else 0
  | _, _ => 0
  end.

(** [relpath(path, start)]; [None] stands for the [ValueError] raised on
    an empty path. *)
Definition relpath (cwd path start : str) : option str :=
  if negb (truthy path) then None
  else
    let start_list := List.filter truthy (split chr_slash (-1) (abspath cwd start)) in
    let path_list := List.filter truthy (split chr_slash (-1) (abspath cwd path)) in
    let i := commonprefix_len start_list path_list in
    let rel_list := List.repeat pardir (length start_list - i) ++ skipn i path_list in
    match rel_list with
    | [] => Some curdir
    | a :: p => Some (join_all a p)
    end.

End posixpath.

(** ** [fnmatch] *)

Module fnmatch.

(** What [translate(pat)] produces, piece by piece: [STAR] for a run of
    ['*'] (the regular expression [.*]), [ANY] for ['?'] ([.] under
    [re.DOTALL]), [LIT c] for [re.escape(c)], and [SET] for a bracket
    class with its ranges [lo-hi] (a single character [c] is the range
    [c-c]). *)
Inductive token :=
| STAR
| ANY
| LIT (c : char)
| SET (negated : bool) (ranges : list (char * char)).

Fixpoint index_of (c : char) (s : str) : option nat :=
  match s with
  | [] => None
  | d :: s' => if (d =? c)%N then Some 0 else option_map S (index_of c s')
  end.

(** The scan for the closing bracket, on the text [r] after a ['[']:
    an optional ['!'], then an optional [']'] taken literally, then the
    next [']'].  The result is [j - i]; [None] is the case [j >= n]. *)
Definition closing_bracket (r : str) : option nat :=
  let j := match r with
           | c :: _ => if (c =? chr_bang)%N then 1 else 0
           | [] => 0
           end in
  let j := match skipn j r with
           | c :: _ => if (c =? chr_rbracket)%N then S j else j
           | [] => j
           end in
  option_map (Nat.add j) (index_of chr_rbracket (skipn j r)).

(** The ranges of a class body (after the ['!'], if any).  [c] is the
    character read last; a ['-'] that has a character on both sides
    makes a range, and neither the first nor the last character of the
    body, nor the character after a range, is such a ['-']. *)
Fixpoint parse_ranges (c : char) (rest : str) {struct rest}
  : list (char * char) :=
  match rest with
  | [] => [(c, c)]
  | d :: rest1 =>
      if (d =? chr_hyphen)%N then
        match rest1 with
        | [] => [(c, c); (d, d)]
        | hi :: rest2 =>
            (c, hi) :: match rest2 with
                       | [] => []
                       | c' :: rest3 => parse_ranges c' rest3
                       end
        end
      else (c, c) :: parse_ranges d rest1
  end.

Definition parse_set (stuff : str) : token :=
  match stuff with
  | [] => SET false []
  | c :: body =>
      if (c =? chr_bang)%N then
        match body with
        | [] => SET true []
        | c' :: body' => SET true (parse_ranges c' body')
        end
      else SET false (parse_ranges c body)
  end.

(** Appending [STAR]: consecutive ['*'] are compressed into one. *)
Definition add_star (res : list token) : list token :=
  match res with
  | STAR :: _ => res
  | _ => STAR :: res
  end.

(** The main loop of [translate].  [skip] counts the characters the
    index [i] has already moved past (the body of a bracket class and
    its closing bracket). *)
Fixpoint translate_from (skip : nat) (pat : str) : list token :=
  match pat with
  | [] => []
  | c :: r =>
      match skip with
      | S skip' => translate_from skip' r
      | O =>
          if (c =? chr_star)%N then add_star (translate_from 0 r)
          else if (c =? chr_question)%N then ANY :: translate_from 0 r
          else if (c =? chr_lbracket)%N then
            match closing_bracket r with
            | None => LIT c :: translate_from 0 r
            | Some j => parse_set (firstn j r) :: translate_from (S j) r
            end
          else LIT c :: translate_from 0 r
      end
  end.

Definition translate (pat : str) : list token := translate_from 0 pat.

Definition in_ranges (ranges : list (char * char)) (c : char) : bool :=
  existsb (fun r => (fst r <=? c)%N && (c <=? snd r)%N) ranges.

(** One character against one piece that is not [STAR]. *)
Definition match_char (t : token) (c : char) : bool :=
  match t with
  | STAR => false
  | ANY => true
  | LIT d => (c =? d)%N
  | SET negated ranges => xorb negated (in_ranges ranges c)
  end.

(** [re.match] of the translated pattern, anchored at both ends. *)
Fixpoint match_tokens (toks : list token) (s : str) {struct toks} : bool :=
  match toks with
  | [] => negb (truthy s)
  | STAR :: toks' =>
      (fix star (s : str) : bool :=
         match_tokens toks' s
         || match s with
            | [] => false
            | _ :: s' => star s'
            end) s
  | t :: toks' =>
      match s with
      | [] => false
      | c :: s' => match_char t c && match_tokens toks' s'
      end
  end.

(** [fnmatchcase(name, pat)] *)
Definition fnmatchcase (name pat : str) : bool :=
  match_tokens (translate pat) name.

(** [os.path.normcase] of [posixpath] returns its argument. *)
Definition normcase (s : str) : str := s.

(** [fnmatch(name, pat)] *)
Definition fnmatch (name pat : str) : bool :=
  let name := normcase name in
  let pat := normcase pat in
  fnmatchcase name pat.

(** Shell-style matching, stated as a relation: ['*'] stands for any run
    of characters, every other piece for exactly one character. *)
Inductive glob : list token -> str -> Prop :=
| glob_end : glob [] []
| glob_star toks run s :
    glob toks s -> glob (STAR :: toks) (run ++ s)
| glob_char t c toks s :
    match_char t c = true -> glob toks s -> glob (t :: toks) (c :: s).

End fnmatch.

Import posixpath.

(** ** The file system *)

(** Iterating over an open text file: a line, the end of the file, or an
    [OSError] raised by the read. *)
Inductive line_iter :=
| StopIteration
| RaiseOSError
| Yield (raw_line : str) (rest : line_iter).

(** [open(path, 'r', ...)]: an [OSError], or a file object. *)
Inductive open_result :=
| OpenError
| Opened (fh : line_iter).

(** A directory lists its entries in the order [os.scandir] reports them. *)
Inductive node :=
| File (contents : open_result)
| Dir (entries : list (str * node)).

Fixpoint lines_of (fh : line_iter) : list str :=
  match fh with
  | StopIteration | RaiseOSError => []
  | Yield raw_line rest => raw_line :: lines_of rest
  end.

(** The iteration reaches the end of the file. *)
Fixpoint read_ok (fh : line_iter) : bool :=
  match fh with
  | StopIteration => true
  | RaiseOSError => false
  | Yield _ rest => read_ok rest
  end.

Fixpoint lookup_entry (name : str) (entries : list (str * node)) : option node :=
  match entries with
  | [] => None
  | (n, x) :: entries' =>
      if str_eqb n name then Some x else lookup_entry name entries'
  end.

(** Path resolution, component by component; [ancestors] are the
    directories above [cur], nearest first.  [None] is [ENOENT] or
    [ENOTDIR]. *)
Fixpoint namei (ancestors : list node) (cur : node) (comps : list str)
  : option (list node * node) :=
  match comps with
  | [] => Some (ancestors, cur)
  | comp :: comps' =>
      match cur with
      | File _ => None
      | Dir entries =>
          if str_eqb comp [] || str_eqb comp curdir
          then namei ancestors cur comps'
          else if str_eqb comp pardir
          then match ancestors with
               | [] => namei [] cur comps'
               | parent :: above => namei above parent comps'
               end
          else match lookup_entry comp entries with
               | Some child => namei (cur :: ancestors) child comps'
               | None => None
               end
      end
  end.

(** A name a directory entry can have. *)
Definition valid_name (name : str) : bool :=
  truthy name && negb (contains chr_slash name)
  && negb (str_eqb name curdir) && negb (str_eqb name pardir).

(** Entry names are valid and distinct within each directory. *)
Fixpoint wf_node (n : node) : bool :=
  match n with
  | File _ => true
  | Dir entries =>
      bool_decide (NoDup (List.map fst entries))
      && (fix all (es : list (str * node)) : bool :=
            match es with
            | [] => true
            | (name, sub) :: es' => valid_name name && wf_node sub && all es'
            end) entries
  end.

(** The result of [count_loc]: [total], or [(per_file_dict, total)]. *)
Inductive count_result :=
| Total (total : Z)
| PerFile (per_file_dict : gmap str Z) (total : Z).

Definition suffix_py : str := py ".py".

Section Pysloc.

(** The state of the process and of the machine: the current directory
    and the root directory of the file system. *)
Variable cwd : str.
Variable fs : node.

(** What a path names: resolution starts at the root directory for an
    absolute path and at [cwd] otherwise; the empty path names nothing. *)
Definition resolve (path : str) : option node :=
  if negb (truthy path) then None
  else if isabs path
  then option_map snd (namei [] fs (split chr_slash (-1) path))
  else match namei [] fs (split chr_slash (-1) cwd) with
       | Some (ancestors, d) =>
           option_map snd (namei ancestors d (split chr_slash (-1) path))
       | None => None
       end.

(** [open(path, 'r', encoding='utf-8', errors='ignore')] *)
Definition open (path : str) : open_result :=
  match resolve path with
  | Some (File contents) => contents
  | Some (Dir _) => OpenError
  | None => OpenError
  end.

(** [os.scandir(top)]; [None] is the [OSError] that [os.walk] swallows. *)
Definition scandir (top : str) : option (list (str * node)) :=
  match resolve top with
  | Some (Dir entries) => Some entries
  | _ => None
  end.

(** *** The ignore matcher, lines 80-121 *)

(** The inner loop [for candidate in candidates], lines 113-120. *)
Fixpoint match_candidates (rel abs_path name : str) (candidates : list str)
  : bool :=
  match candidates with
  | [] => false
  | candidate :: candidates' =>
      if fnmatch.fnmatch rel candidate
         || fnmatch.fnmatch abs_path candidate
         || fnmatch.fnmatch name candidate
      then true
      else match_candidates rel abs_path name candidates'
  end.

(** Lines 104-111. *)
Definition candidates_of (root_abs pattern : str) : list str :=
  [pattern]
  ++ (if isabs pattern
      then match relpath cwd pattern root_abs with
           | Some r => [r]
           | None => []
           end
      else [abspath cwd (join root_abs pattern)]).

(** The loop [for pattern in ignore_patterns], lines 102-121. *)
Fixpoint match_patterns (rel abs_path name root_abs : str)
         (ignore_patterns : list str) : bool :=
  match ignore_patterns with
  | [] => false
  | pattern :: ignore_patterns' =>
      if match_candidates rel abs_path name (candidates_of root_abs pattern)
      then true
      else match_patterns rel abs_path name root_abs ignore_patterns'
  end.

(** The relative form of the path, line 87-91. *)
Definition rel_of (abs_path root_abs : str) : str :=
  match relpath cwd abs_path root_abs with
  | Some rel => rel
  | None => abs_path
  end.

Definition should_ignore (path : str) (ignore_patterns : option (list str))
           (root_path : str) (include_hidden : bool) : bool :=
  let abs_path := abspath cwd path in
  let root_abs := abspath cwd root_path in
  let rel := rel_of abs_path root_abs in
  let name := basename path in
  if negb include_hidden && startswith name [chr_dot] then true
  else
    match ignore_patterns with
    | None | Some [] => false
    | Some patterns => match_patterns rel abs_path name root_abs patterns
    end.

(** *** The tree walker, lines 124-157 *)

(** The loop [for name in filenames], lines 151-157. *)
Fixpoint walk_files (root_path : str) (ignore_patterns : option (list str))
         (include_hidden : bool) (dirpath : str)
         (entries : list (str * node)) : list str :=
  match entries with
  | [] => []
  | (name, Dir _) :: entries' =>
      walk_files root_path ignore_patterns include_hidden dirpath entries'
  | (name, File _) :: entries' =>
      let full_path := join dirpath name in
      (if should_ignore full_path ignore_patterns root_path include_hidden
       then []
       else if endswith name suffix_py then [full_path] else [])
      ++ walk_files root_path ignore_patterns include_hidden dirpath entries'
  end.

(** [os.walk(dirpath)] driven by the loop body of lines 140-157: the
    files of [dirpath] first, then the directories left in [dirnames]
    by the pruning of lines 142-149, each walked in turn. *)
Fixpoint walk (root_path : str) (ignore_patterns : option (list str))
         (include_hidden : bool) (dirpath : str) (n : node) : list str :=
  match n with
  | File _ => []
  | Dir entries =>
      walk_files root_path ignore_patterns include_hidden dirpath entries
      ++ (fix descend (es : list (str * node)) : list str :=
            match es with
            | [] => []
            | (d, File _) :: es' => descend es'
            | (d, (Dir _) as sub) :: es' =>
                (if should_ignore (join dirpath d) ignore_patterns
                      root_path include_hidden
                 then []
                 else walk root_path ignore_patterns include_hidden
                        (join dirpath d) sub)
                ++ descend es'
            end) entries
  end.

(** The second half of [walk], by name: the walks of the directories of
    [es] that are not ignored. *)
Fixpoint walk_dirs (root_path : str) (ignore_patterns : option (list str))
         (include_hidden : bool) (dirpath : str)
         (es : list (str * node)) : list str :=
  match es with
  | [] => []
  | (d, File _) :: es' =>
      walk_dirs root_path ignore_patterns include_hidden dirpath es'
  | (d, (Dir _) as sub) :: es' =>
      (if should_ignore (join dirpath d) ignore_patterns
            root_path include_hidden
       then []
       else walk root_path ignore_patterns include_hidden
              (join dirpath d) sub)
      ++ walk_dirs root_path ignore_patterns include_hidden dirpath es'
  end.

(** [iter_python_files(root_path, ignore_patterns, include_hidden)], as
    the list of the paths it yields, in order. *)
Definition iter_python_files (root_path : str)
           (ignore_patterns : option (list str)) (include_hidden : bool)
  : list str :=
  let root_path := abspath cwd root_path in
  let ignore_patterns :=
    match ignore_patterns with
    | None | Some [] => Some []
    | Some _ => ignore_patterns
    end in
  match scandir root_path with
  | None => []
  | Some entries =>
      walk root_path ignore_patterns include_hidden root_path (Dir entries)
  end.

(** *** The file counter, lines 160-180 *)

(** The loop [for raw_line in fh] inside the [try]. *)
Fixpoint count_lines (loc : Z) (fh : line_iter) : Z :=
  match fh with
  | StopIteration => loc
  | RaiseOSError => loc
  | Yield raw_line rest =>
      count_lines (if is_code_line raw_line then loc + 1 else loc)%Z rest
  end.

Definition count_file_loc (path : str) : Z :=
  let loc := 0%Z in
  match open path with
  | OpenError => loc
  | Opened fh => count_lines loc fh
  end.

(** *** The aggregator, lines 183-213 *)

(** One iteration of the loop of lines 200-207. *)
Definition count_step (per_file : bool) (acc : Z * gmap str Z) (path : str)
  : Z * gmap str Z :=
  let '(total, per_file_dict) := acc in
  let file_loc := count_file_loc path in
  let total := (total + file_loc)%Z in
  (total, if per_file then <[path := file_loc]> per_file_dict
          else per_file_dict).

Definition count_loc (root_path : str) (per_file : bool)
           (ignore_patterns : option (list str)) (include_hidden : bool)
  : count_result :=
  let '(total, per_file_dict) :=
    fold_left (count_step per_file)
              (iter_python_files root_path ignore_patterns include_hidden)
              (0%Z, ∅) in
  if per_file then PerFile per_file_dict total else Total total.

End Pysloc.

(** ** The summary and the entry point *)

(** [str(n)] for an [int]. *)
Definition str_of_int (n : Z) : str :=
  py (NilZero.string_of_int (Z.to_int n)).

(** The digits of a number, least significant first, with a comma after
    every third one that has a digit after it; [i] digits of the current
    group are out already. *)
Fixpoint commas_rev (i : nat) (rev_digits : str) : str :=
  match rev_digits with
  | [] => []
  | d :: rest =>
      if (i =? 3)%nat then 44%N :: d :: commas_rev 1 rest
      else d :: commas_rev (S i) rest
  end.

(** [f'{n:,}'] *)
Definition format_comma (n : Z) : str :=
  (if (n <? 0)%Z then [chr_hyphen] else [])
  ++ rev (commas_rev 0 (rev (str_of_int (Z.abs n)))).

(** [f'{n:8d}'] *)
Definition format_8d (n : Z) : str :=
  let s := str_of_int n in
  List.repeat 32%N (8 - length s) ++ s.

(** [a < b] for two [str]: by code points, a proper prefix first. *)
Fixpoint str_ltb (a b : str) : bool :=
  match a, b with
  | _, [] => false
  | [], _ :: _ => true
  | x :: a', y :: b' => (x <? y)%N || ((x =? y)%N && str_ltb a' b')
  end.

Fixpoint insert_sorted (x : str) (l : list str) : list str :=
  match l with
  | [] => [x]
  | y :: l' => if str_ltb y x then y :: insert_sorted x l' else x :: l
  end.

(** [sorted(keys)] for a list of [str]. *)
Definition sorted (keys : list str) : list str :=
  fold_right insert_sorted [] keys.

(** The keys of a [dict], as iterating over it gives them. *)
Definition dict_keys (d : gmap str Z) : list str :=
  List.map fst (map_to_list d).

(** [args.ignore] after line 319: the groups of [-i] flattened. *)
Definition flatten_ignore (ignore : list (list str)) : list str :=
  flat_map (fun group => List.map (fun pattern => pattern) group) ignore.

(** What [main] reads of the parsed arguments. *)
Record args := {
  args_paths : list str;
  args_ignore : list str;
  args_per_file : bool;
  args_include_hidden : bool
}.

Definition total_of (r : count_result) : Z :=
  match r with
  | Total total => total
  | PerFile _ total => total
  end.

Definition mapping_of (r : count_result) : option (gmap str Z) :=
  match r with
  | Total _ => None
  | PerFile per_file_dict _ => Some per_file_dict
  end.

Section Cli.

Variable cwd : str.
Variable fs : node.

(** [format_path_for_display(path, root_root)], lines 216-223. *)
Definition format_path_for_display (path root_root : str) : str :=
  match relpath cwd path root_root with
  | Some r => r
  | None => path
  end.

Definition rule_double : str := List.repeat 61%N 70.
Definition rule_single : str := List.repeat 45%N 70.

(** One turn of the loop of lines 234-236. *)
Definition summary_row (root_abs : str) (per_file_counts : gmap str Z)
           (path : str) : str :=
  let display_path := format_path_for_display path root_abs in
  format_8d (default 0%Z (per_file_counts !! path))
  ++ py " | " ++ display_path.

(** [log_sloc_summary(root_abs, total, per_file_counts)], lines 226-241,
    as the messages it passes to [log.info], in order. *)
Definition log_sloc_summary (root_abs : str) (total : Z)
           (per_file_counts : option (gmap str Z)) : list str :=
  [rule_double]
  ++ match per_file_counts with
     | Some counts =>
         [py "SLOC summary for " ++ root_abs; rule_single]
         ++ List.map (summary_row root_abs counts) (sorted (dict_keys counts))
         ++ [rule_single; py "TOTAL SLOC: " ++ format_comma total]
     | None =>
         [py "Total Python SLOC under " ++ root_abs ++ py ": "
          ++ format_comma total]
     end
  ++ [rule_double].

(** One turn of the loop of [main], lines 346-363: [overall_total] and the
    messages of the summaries so far. *)
Definition main_step (a : args) (acc : Z * list str) (target : str)
  : Z * list str :=
  let '(overall_total, logged) := acc in
  let root_abs := abspath cwd target in
  let '(total, messages) :=
    if args_per_file a then
      let r := count_loc cwd fs target true (Some (args_ignore a))
                         (args_include_hidden a) in
      (total_of r, log_sloc_summary root_abs (total_of r) (mapping_of r))
    else
      let r := count_loc cwd fs target false (Some (args_ignore a))
                         (args_include_hidden a) in
      (total_of r, log_sloc_summary root_abs (total_of r) None) in
  ((overall_total + total)%Z, logged ++ messages).

(** [main()], lines 339-369, once [handle_args()] has returned [a]: the
    final [overall_total] and the messages that [main] and
    [log_sloc_summary] pass to [log.info]; what the functions they call
    log is not part of it. *)
Definition main (a : args) : Z * list str :=
  let '(overall_total, logged) :=
    fold_left (main_step a) (args_paths a) (0%Z, []) in
  (overall_total,
   if (1 <? length (args_paths a))%nat
   then logged
        ++ [rule_double;
            py "Combined total across " ++ str_of_int (Z.of_nat (length (args_paths a)))
            ++ py " paths: " ++ format_comma overall_total;
            rule_double]
   else logged).

End Cli.

(** ** The vocabulary of the specification *)

(** What [join(path, b)] puts in front of a relative [b]. *)
Definition dir_prefix (path : str) : str :=
  if negb (truthy path) || endswith path sep then path else path ++ sep.

(** A path component: not empty and without a slash. *)
Definition plain (c : str) : Prop := c <> [] /\ ~ In chr_slash c.

(** The normal form of an absolute path: one or two slashes, then valid
    names joined by slashes. *)
Definition normal_form (k : nat) (comps : list str) : str :=
  List.repeat chr_slash k ++ join_with chr_slash comps.

(** A pattern without any of the characters [fnmatch] gives a meaning to:
    ['*'], ['?'] and ['[']. *)
Definition glob_free (pattern : str) : bool :=
  forallb (fun c => negb ((c =? chr_star)%N || (c =? chr_question)%N
                          || (c =? chr_lbracket)%N)) pattern.

(** The sum of the counts held in a per-file mapping. *)
Definition dict_sum (d : gmap str Z) : Z :=
  map_fold (fun _ file_loc acc => (file_loc + acc)%Z) 0%Z d.

Section Vocabulary.

Variable cwd : str.

(** The pattern list a caller passed; [None] counts as the empty list. *)
Definition patterns_of (ignore_patterns : option (list str)) : list str :=
  match ignore_patterns with
  | None => []
  | Some patterns => patterns
  end.

(** The hidden rule applies to [path]. *)
Definition hidden_excluded (path : str) (include_hidden : bool) : bool :=
  negb include_hidden && startswith (basename path) [chr_dot].

(** The candidate forms of a pattern: the pattern itself; for an absolute
    pattern its form relative to the absolute root, when there is one;
    for a relative pattern its absolute form under the root. *)
Inductive candidate_form (root_abs pattern : str) : str -> Prop :=
| candidate_itself :
    candidate_form root_abs pattern pattern
| candidate_relative r :
    isabs pattern = true ->
    relpath cwd pattern root_abs = Some r ->
    candidate_form root_abs pattern r
| candidate_absolute :
    isabs pattern = false ->
    candidate_form root_abs pattern (abspath cwd (join root_abs pattern)).

(** The three forms of a path: relative to the root, absolute, and its
    basename. *)
Inductive path_form (path root_path : str) : str -> Prop :=
| form_relative rel :
    relpath cwd (abspath cwd path) (abspath cwd root_path) = Some rel ->
    path_form path root_path rel
| form_absolute :
    path_form path root_path (abspath cwd path)
| form_basename :
    path_form path root_path (basename path).

(** Some candidate form of [pattern] matches some form of [path]. *)
Definition pattern_excludes (path root_path pattern : str) : Prop :=
  exists candidate target,
    candidate_form (abspath cwd root_path) pattern candidate
    /\ path_form path root_path target
    /\ fnmatch.glob (fnmatch.translate candidate) target.

(** Opening the file or reading it to its end fails with an I/O error. *)
Definition io_fails (r : open_result) : bool :=
  match r with
  | OpenError => true
  | Opened fh => negb (read_ok fh)
  end.

(** The lines the loop of [count_file_loc] gets to see. *)
Definition delivered (r : open_result) : list str :=
  match r with
  | OpenError => []
  | Opened fh => lines_of fh
  end.

(** [entries] leads to the entries [below] through the chain of
    directories named [ds]. *)
Inductive subdir (entries : list (str * node))
  : list str -> list (str * node) -> Prop :=
| subdir_here : subdir entries [] entries
| subdir_step d sub ds below :
    In (d, Dir sub) entries ->
    subdir sub ds below ->
    subdir entries (d :: ds) below.

(** [p] is the path of a file [name] that lies under [dirpath] through
    the directories [ds], none of which is ignored, that is not ignored
    itself, and whose name ends with [.py]. *)
Definition kept_file (ignore_patterns : option (list str))
           (root_path : str) (include_hidden : bool)
           (dirpath : str) (entries : list (str * node)) (p : str) : Prop :=
  exists ds name contents below,
    subdir entries ds below
    /\ In (name, File contents) below
    /\ p = join_all dirpath (ds ++ [name])
    /\ (forall k, k < length ds ->
          should_ignore cwd (join_all dirpath (firstn (S k) ds))
                        ignore_patterns root_path include_hidden = false)
    /\ should_ignore cwd p ignore_patterns root_path include_hidden = false
    /\ endswith name suffix_py = true.

End Vocabulary.

(** ** A sample tree

    [/home/u/proj] holds [a.py] (two code lines, a blank line and a
    comment), [sub/b.py] (one code line), a hidden directory, a text file,
    a file that cannot be opened and a file whose second read fails. *)

Module Sample.

Fixpoint iter_of (lines : list str) : line_iter :=
  match lines with
  | [] => StopIteration
  | l :: lines' => Yield l (iter_of lines')
  end.

Definition nl : str := [10%N].

Definition a_py : node :=
  File (Opened (iter_of [py "import os" ++ nl; nl; py "# setup" ++ nl;
                         py "x = 1  # note" ++ nl])).
Definition b_py : node :=
  File (Opened (iter_of [py "print(1)" ++ nl])).
Definition locked_py : node := File OpenError.
Definition flaky_py : node :=
  File (Opened (Yield (py "y = 2" ++ nl) RaiseOSError)).

Definition proj : node :=
  Dir [ (py "a.py", a_py);
        (py "sub", Dir [ (py "b.py", b_py) ]);
        (py ".git", Dir [ (py "hook.py", b_py) ]);
        (py "notes.txt", b_py);
        (py "locked.py", locked_py);
        (py "flaky.py", flaky_py) ].

Definition fs : node :=
  Dir [ (py "home", Dir [ (py "u", Dir [ (py "proj", proj) ]) ]) ].

Definition cwd : str := py "/home/u".

End Sample.

(** * Properties *)

(** ** The examples of the specification, on the sample tree *)

Example is_code_line_ex1 : is_code_line (py "x = 1  # note") = true.
Proof. reflexivity. Qed.
Example is_code_line_ex2 : is_code_line (py "   # just a comment") = false.
Proof. reflexivity. Qed.
Example is_code_line_ex3 : is_code_line (py "") = false.
Proof. reflexivity. Qed.
Example is_code_line_ex4 : is_code_line (py "   ") = false.
Proof. reflexivity. Qed.
Example is_code_line_ex5 : is_code_line (py "s = '#'") = true.
Proof. reflexivity. Qed.
Example is_code_line_ex6 : is_code_line (py "'#' in s") = true.
Proof. reflexivity. Qed.
Example is_code_line_ex7 : is_code_line [9; 35; 32; 120]%N = false.
Proof. reflexivity. Qed.

Example fnmatch_case : fnmatch.fnmatch (py "A.py") (py "a.py") = false.
Proof. reflexivity. Qed.
Example fnmatch_star_crosses_slash :
  fnmatch.fnmatch (py "sub/deep/b.py") (py "sub/*.py") = true.
Proof. reflexivity. Qed.
Example fnmatch_class :
  fnmatch.fnmatch (py "b.py") (py "[a-c].p?") = true
  /\ fnmatch.fnmatch (py "d.py") (py "[a-c].p?") = false
  /\ fnmatch.fnmatch (py "d.py") (py "[!a-c].p?") = true.
Proof. repeat split; reflexivity. Qed.
Example translate_ex :
  fnmatch.translate (py "a**[!x-z_]?[")
  = [fnmatch.LIT 97%N; fnmatch.STAR;
     fnmatch.SET true [(120%N, 122%N); (95%N, 95%N)];
     fnmatch.ANY; fnmatch.LIT 91%N].
Proof. reflexivity. Qed.

Example abspath_ex :
  abspath Sample.cwd (py "proj/sub/../a.py") = py "/home/u/proj/a.py".
Proof. reflexivity. Qed.
Example relpath_ex :
  relpath Sample.cwd (py "/home/u/proj/sub/b.py") (py "/home/u/proj")
  = Some (py "sub/b.py").
Proof. reflexivity. Qed.

(** A pattern given as an absolute path excludes a file addressed by a
    relative path, and the other way round. *)
Example should_ignore_absolute_pattern :
  should_ignore Sample.cwd (py "proj/sub/b.py")
                (Some [py "/home/u/proj/sub/b.py"]) (py "proj") false = true.
Proof. reflexivity. Qed.
Example should_ignore_relative_pattern :
  should_ignore Sample.cwd (py "/home/u/proj/sub/b.py")
                (Some [py "sub/b.py"]) (py "proj") false = true.
Proof. reflexivity. Qed.
Example should_ignore_no_match :
  should_ignore Sample.cwd (py "/home/u/proj/sub/b.py")
                (Some [py "SUB/b.py"; py "*.txt"]) (py "proj") false = false.
Proof. reflexivity. Qed.

Example walk_sample :
  iter_python_files Sample.cwd Sample.fs (py "proj") None false
  = [py "/home/u/proj/a.py"; py "/home/u/proj/locked.py";
     py "/home/u/proj/flaky.py"; py "/home/u/proj/sub/b.py"].
Proof. reflexivity. Qed.
Example walk_sample_hidden :
  iter_python_files Sample.cwd Sample.fs (py "proj") None true
  = [py "/home/u/proj/a.py"; py "/home/u/proj/locked.py";
     py "/home/u/proj/flaky.py"; py "/home/u/proj/sub/b.py";
     py "/home/u/proj/.git/hook.py"].
Proof. reflexivity. Qed.
Example walk_sample_pruned :
  iter_python_files Sample.cwd Sample.fs (py "proj") (Some [py "sub"]) false
  = [py "/home/u/proj/a.py"; py "/home/u/proj/locked.py";
     py "/home/u/proj/flaky.py"].
Proof. reflexivity. Qed.

Example count_loc_sample :
  count_loc Sample.cwd Sample.fs (py "proj") true
            (Some [py "locked.py"; py "flaky.*"]) false
  = PerFile (<[py "/home/u/proj/a.py" := 2%Z]>
               (<[py "/home/u/proj/sub/b.py" := 1%Z]> ∅)) 3.
Proof. vm_compute. reflexivity. Qed.
Example count_loc_sample_pruned :
  count_loc Sample.cwd Sample.fs (py "proj") true
            (Some [py "locked.py"; py "flaky.*"; py "sub"]) false
  = PerFile (<[py "/home/u/proj/a.py" := 2%Z]> ∅) 2.
Proof. vm_compute. reflexivity. Qed.
Example count_loc_sample_total :
  count_loc Sample.cwd Sample.fs (py "proj") false None false = Total 4.
Proof. vm_compute. reflexivity. Qed.

(** ** Facts about stripping and splitting *)

Lemma lstrip_first_none (s : str) :
  first_non_space s = None -> lstrip s = [].
Proof.
  unfold first_non_space.
  induction s as [|c s IH]; simpl; [reflexivity|].
  destruct (isspace c); simpl; [exact IH | discriminate].
Qed.

Lemma lstrip_first_some (s : str) (c : char) :
  first_non_space s = Some c ->
  exists r, lstrip s = c :: r /\ isspace c = false.
Proof.
  unfold first_non_space.
  induction s as [|d s IH]; simpl; [discriminate|].
  destruct (isspace d) eqn:Hd; simpl.
  - exact IH.
  - intros [= ->]. exists s. split; [reflexivity | exact Hd].
Qed.

Lemma lstrip_snoc (s : str) (c : char) :
  isspace c = false -> lstrip (s ++ [c]) = lstrip s ++ [c].
Proof.
  intros Hc. induction s as [|d s IH]; simpl.
  - rewrite Hc. reflexivity.
  - destruct (isspace d); [exact IH | reflexivity].
Qed.

Lemma rstrip_cons (c : char) (s : str) :
  isspace c = false -> rstrip (c :: s) = c :: rstrip s.
Proof.
  intros Hc. unfold rstrip. simpl rev at 2.
  rewrite lstrip_snoc by exact Hc.
  rewrite rev_app_distr. reflexivity.
Qed.

Lemma strip_first_none (s : str) :
  first_non_space s = None -> strip s = [].
Proof.
  intros H. unfold strip. rewrite (lstrip_first_none s H). reflexivity.
Qed.

Lemma strip_first_some (s : str) (c : char) :
  first_non_space s = Some c ->
  exists r, strip s = c :: r /\ isspace c = false.
Proof.
  intros H. destruct (lstrip_first_some s c H) as (r & Hr & Hc).
  exists (rstrip r). split; [|exact Hc].
  unfold strip. rewrite Hr. apply rstrip_cons, Hc.
Qed.

(** [s.split('#', 1)[0]] is the text before the first ['#']. *)
Lemma split_hash_head (s : str) :
  nth 0 (split chr_hash 1 s) [] = before_hash s.
Proof.
  induction s as [|c s IH]; simpl; [reflexivity|].
  destruct (c =? chr_hash)%N; simpl; [reflexivity|].
  destruct (split chr_hash 1 s) as [|piece pieces] eqn:E; simpl in *.
  - rewrite <- IH. reflexivity.
  - rewrite IH. reflexivity.
Qed.

Lemma startswith_hash (c : char) (s : str) :
  startswith (c :: s) [chr_hash] = (c =? chr_hash)%N.
Proof. destruct s; simpl; apply andb_true_r. Qed.

Lemma is_code_line_first (line : str) :
  is_code_line line =
  match first_non_space line with
  | None => false
  | Some c => negb (c =? chr_hash)%N
  end.
Proof.
  unfold is_code_line.
  destruct (first_non_space line) as [c|] eqn:E.
  - destruct (strip_first_some line c E) as (r & Hr & Hc).
    rewrite Hr. cbn [truthy negb]. rewrite startswith_hash.
    destruct (c =? chr_hash)%N eqn:Hh; [reflexivity|].
    rewrite split_hash_head. cbn [before_hash]. rewrite Hh.
    unfold strip. cbn [lstrip]. rewrite Hc.
    rewrite rstrip_cons by exact Hc. reflexivity.
  - rewrite (strip_first_none line E). reflexivity.
Qed.

(** ** Shell-style matching *)

Section Matching.
Import fnmatch.

Lemma match_tokens_star (toks : list token) (s : str) :
  match_tokens (STAR :: toks) s =
  match_tokens toks s
  || match s with
     | [] => false
     | _ :: s' => match_tokens (STAR :: toks) s'
     end.
Proof. destruct s; reflexivity. Qed.

Lemma match_tokens_char (t : token) (toks : list token) (c : char) (s : str) :
  match_char t c = true ->
  match_tokens (t :: toks) (c :: s) = match_tokens toks s.
Proof. destruct t; simpl; intros H; try discriminate; rewrite ?H; reflexivity. Qed.

Lemma glob_star_inv (toks : list token) (s : str) :
  glob (STAR :: toks) s -> exists run rest, s = run ++ rest /\ glob toks rest.
Proof.
  inversion 1; subst.
  - eauto.
  - discriminate.
Qed.

Lemma glob_sound (toks : list token) (s : str) :
  match_tokens toks s = true -> glob toks s.
Proof.
  revert s. induction toks as [|t toks IH]; intros s.
  - destruct s; simpl; [constructor | discriminate].
  - destruct t.
    + induction s as [|c s IHs]; rewrite match_tokens_star.
      * rewrite orb_false_r. intros H. apply (glob_star toks [] []), IH, H.
      * intros [H|H]%orb_true_iff.
        -- apply (glob_star toks [] (c :: s)), IH, H.
        -- destruct (glob_star_inv _ _ (IHs H)) as (run & rest & -> & Hg).
           apply (glob_star toks (c :: run) rest), Hg.
    + destruct s as [|c s]; simpl; [discriminate|].
      intros H. apply glob_char; [reflexivity | apply IH, H].
    + destruct s as [|d s]; simpl; [discriminate|].
      intros [H1 H2]%andb_true_iff. apply glob_char; [exact H1 | apply IH, H2].
    + destruct s as [|d s]; simpl; [discriminate|].
      intros [H1 H2]%andb_true_iff. apply glob_char; [exact H1 | apply IH, H2].
Qed.

Lemma glob_complete (toks : list token) (s : str) :
  glob toks s -> match_tokens toks s = true.
Proof.
  induction 1 as [|toks run s Hg IH|t c toks s Hc Hg IH].
  - reflexivity.
  - induction run as [|c run IHrun]; rewrite match_tokens_star.
    + simpl. rewrite IH. reflexivity.
    + apply orb_true_iff. right. exact IHrun.
  - rewrite match_tokens_char by exact Hc. exact IH.
Qed.

(** [fnmatch] decides shell-style matching of the translated pattern. *)
Lemma fnmatch_glob (name pat : str) :
  fnmatch name pat = true <-> glob (translate pat) name.
Proof.
  unfold fnmatch, fnmatchcase, normcase.
  split; [apply glob_sound | apply glob_complete].
Qed.

(** ['*'] matches any run of characters and ['?'] exactly one. *)
Lemma fnmatch_star_any (name : str) : fnmatch name [chr_star] = true.
Proof.
  apply fnmatch_glob. change (glob [STAR] name).
  rewrite <- (app_nil_r name). apply glob_star. constructor.
Qed.

Lemma fnmatch_question_one (name : str) :
  fnmatch name [chr_question] = true <-> exists c, name = [c].
Proof.
  rewrite fnmatch_glob. change (translate [chr_question]) with [ANY]. split.
  - inversion 1 as [| |t c toks s Hc Hg]; subst. inversion Hg; subst. eauto.
  - intros [c ->]. apply glob_char; [reflexivity | constructor].
Qed.

End Matching.

(** ** The ignore matcher *)

Section IgnoreMatcher.

Variable cwd : str.

Lemma match_candidates_spec (rel abs_path name : str) (candidates : list str) :
  match_candidates rel abs_path name candidates = true <->
  exists candidate,
    In candidate candidates
    /\ (fnmatch.fnmatch rel candidate = true
        \/ fnmatch.fnmatch abs_path candidate = true
        \/ fnmatch.fnmatch name candidate = true).
Proof.
  induction candidates as [|c cs IH]; simpl.
  - split; [discriminate | intros (? & [] & _)].
  - destruct (fnmatch.fnmatch rel c || fnmatch.fnmatch abs_path c
              || fnmatch.fnmatch name c) eqn:E.
    + split; [intros _ | reflexivity].
      exists c. split; [left; reflexivity|].
      apply orb_true_iff in E as [E|E]; [apply orb_true_iff in E|]; tauto.
    + rewrite IH. apply orb_false_iff in E as [E E3].
      apply orb_false_iff in E as [E1 E2].
      split.
      * intros (x & Hin & Hm). exists x. tauto.
      * intros (x & [<-|Hin] & Hm).
        -- rewrite E1, E2, E3 in Hm. destruct Hm as [?|[?|?]]; discriminate.
        -- exists x. tauto.
Qed.

Lemma candidates_of_spec (root_abs pattern candidate : str) :
  In candidate (candidates_of cwd root_abs pattern) <->
  candidate_form cwd root_abs pattern candidate.
Proof.
  unfold candidates_of. simpl. split.
  - intros [<-|H]; [constructor|].
    destruct (isabs pattern) eqn:Ha.
    + destruct (relpath cwd pattern root_abs) as [r|] eqn:Hr; simpl in H;
        [destruct H as [<-|[]] | destruct H].
      apply candidate_relative; assumption.
    + destruct H as [<-|[]]. apply candidate_absolute, Ha.
  - intros [|r Ha Hr|Ha]; [left; reflexivity | |]; right; rewrite Ha.
    + rewrite Hr. left; reflexivity.
    + left; reflexivity.
Qed.

Lemma match_patterns_spec (rel abs_path name root_abs : str)
      (patterns : list str) :
  match_patterns cwd rel abs_path name root_abs patterns = true <->
  exists pattern,
    In pattern patterns
    /\ match_candidates rel abs_path name (candidates_of cwd root_abs pattern)
       = true.
Proof.
  induction patterns as [|p ps IH]; cbn [match_patterns In].
  - split; [discriminate | intros (? & [] & _)].
  - destruct (match_candidates rel abs_path name (candidates_of cwd root_abs p))
      eqn:E.
    + split; [intros _; exists p; tauto | reflexivity].
    + rewrite IH. split.
      * intros (x & Hin & Hm). exists x. tauto.
      * intros (x & [<-|Hin] & Hm); [congruence | exists x; tauto].
Qed.

(** The relative form the code matches against is one of the three forms
    of the path; when [relpath] gives none it is the absolute form. *)
Lemma rel_of_form (path root_path : str) :
  path_form cwd path root_path
            (rel_of cwd (abspath cwd path) (abspath cwd root_path)).
Proof.
  unfold rel_of.
  destruct (relpath cwd (abspath cwd path) (abspath cwd root_path)) eqn:E.
  - apply form_relative, E.
  - apply form_absolute.
Qed.

Lemma path_form_cases (path root_path target : str) :
  path_form cwd path root_path target ->
  target = rel_of cwd (abspath cwd path) (abspath cwd root_path)
  \/ target = abspath cwd path
  \/ target = basename path.
Proof.
  intros [rel Hrel| |]; [left | right; left | right; right]; try reflexivity.
  unfold rel_of. rewrite Hrel. reflexivity.
Qed.

Lemma match_patterns_excludes (path root_path : str) (patterns : list str) :
  match_patterns cwd
    (rel_of cwd (abspath cwd path) (abspath cwd root_path))
    (abspath cwd path) (basename path) (abspath cwd root_path) patterns
  = true <->
  exists pattern,
    In pattern patterns /\ pattern_excludes cwd path root_path pattern.
Proof.
  rewrite match_patterns_spec. unfold pattern_excludes.
  split; intros (p & Hin & H); exists p; (split; [exact Hin|]).
  - apply match_candidates_spec in H as (c & Hc & Hm).
    apply candidates_of_spec in Hc.
    destruct Hm as [Hm|[Hm|Hm]]; apply fnmatch_glob in Hm;
      eexists c, _; (split; [exact Hc|]); (split; [|exact Hm]).
    + apply rel_of_form.
    + apply form_absolute.
    + apply form_basename.
  - destruct H as (c & t & Hc & Ht & Hm).
    apply match_candidates_spec. exists c.
    split; [apply candidates_of_spec, Hc|].
    apply fnmatch_glob in Hm.
    destruct (path_form_cases _ _ _ Ht) as [ -> | [ -> | -> ] ]; tauto.
Qed.

(** What [should_ignore] computes: the hidden rule, or else some pattern
    of the list. *)
Lemma should_ignore_spec (path : str) (ignore_patterns : option (list str))
      (root_path : str) (include_hidden : bool) :
  should_ignore cwd path ignore_patterns root_path include_hidden = true <->
  hidden_excluded path include_hidden = true
  \/ exists pattern,
       In pattern (patterns_of ignore_patterns)
       /\ pattern_excludes cwd path root_path pattern.
Proof.
  unfold should_ignore, hidden_excluded.
  destruct (negb include_hidden && startswith (basename path) [chr_dot]).
  - tauto.
  - destruct ignore_patterns as [[|p ps]|]; cbn [patterns_of].
    + split; [discriminate | intros [?|(? & [] & _)]; discriminate].
    + rewrite match_patterns_excludes.
      split; [tauto | intros [?|?]; [discriminate | assumption]].
    + split; [discriminate | intros [?|(? & [] & _)]; discriminate].
Qed.

Lemma should_ignore_ext (path : str) (pats pats' : option (list str))
      (root_path : str) (include_hidden : bool) :
  (forall p, In p (patterns_of pats) <-> In p (patterns_of pats')) ->
  should_ignore cwd path pats root_path include_hidden
  = should_ignore cwd path pats' root_path include_hidden.
Proof.
  intros H. apply eq_true_iff_eq. rewrite !should_ignore_spec.
  split; (intros [?|(p & Hin & Hp)]; [left; assumption | right]);
    exists p; (split; [apply H, Hin | exact Hp]).
Qed.

End IgnoreMatcher.

(** ** Joining names onto a directory path *)

(** Induction over a tree, with the hypothesis for every entry of a
    directory. *)
Lemma node_nested_ind (P : node -> Prop) :
  (forall contents, P (File contents)) ->
  (forall entries, Forall (fun e => P (snd e)) entries -> P (Dir entries)) ->
  forall n, P n.
Proof.
  intros Hfile Hdir. fix IH 1. intros [contents|entries].
  - apply Hfile.
  - apply Hdir. induction entries as [|[name sub] es IHes]; constructor.
    + apply IH.
    + exact IHes.
Qed.

Lemma contains_false_iff (c : char) (s : str) :
  contains c s = false <-> ~ In c s.
Proof.
  unfold contains. split.
  - intros H Hin. assert (existsb (N.eqb c) s = true) as E; [|congruence].
    apply existsb_exists. exists c. split; [exact Hin | apply N.eqb_refl].
  - intros H. destruct (existsb (N.eqb c) s) eqn:E; [|reflexivity].
    apply existsb_exists in E as (x & Hin & Hx).
    apply N.eqb_eq in Hx. subst x. contradiction.
Qed.

Lemma valid_name_nonempty (name : str) : valid_name name = true -> name <> [].
Proof. destruct name; [discriminate | discriminate]. Qed.

Lemma valid_name_no_slash (name : str) :
  valid_name name = true -> ~ In chr_slash name.
Proof.
  unfold valid_name. intros H. apply contains_false_iff.
  destruct (contains chr_slash name); [|reflexivity].
  rewrite andb_false_r in H. discriminate.
Qed.

Lemma startswith_slash_false (s : str) :
  ~ In chr_slash s -> startswith s sep = false.
Proof.
  destruct s as [|c s]; [reflexivity|]. intros H. simpl.
  destruct (N.eqb_spec c chr_slash) as [->|_]; [|reflexivity].
  exfalso. apply H. left. reflexivity.
Qed.

Lemma startswith_sep_cons (c : char) (s : str) :
  startswith (c :: s) sep = (c =? chr_slash)%N.
Proof. destruct s; simpl; apply andb_true_r. Qed.

Lemma join_relative (path b : str) :
  ~ In chr_slash b -> join path b = dir_prefix path ++ b.
Proof.
  intros H. unfold join, dir_prefix.
  rewrite (startswith_slash_false b H).
  destruct (negb (truthy path) || endswith path sep); [reflexivity|].
  rewrite <- app_assoc. reflexivity.
Qed.

Lemma endswith_name_false (pre name : str) :
  name <> [] -> ~ In chr_slash name -> endswith (pre ++ name) sep = false.
Proof.
  intros Hne Hns. unfold endswith. rewrite rev_app_distr.
  destruct (rev name) as [|c r] eqn:E.
  - apply (f_equal (@rev _)) in E. rewrite rev_involutive in E. contradiction.
  - simpl app. rewrite startswith_sep_cons.
    destruct (N.eqb_spec c chr_slash) as [->|_]; [|reflexivity].
    exfalso. apply Hns. apply in_rev. rewrite E. left. reflexivity.
Qed.

Lemma dir_prefix_join (path d : str) :
  valid_name d = true ->
  dir_prefix (join path d) = dir_prefix path ++ d ++ sep.
Proof.
  intros Hv.
  pose proof (valid_name_nonempty d Hv) as Hne.
  pose proof (valid_name_no_slash d Hv) as Hns.
  rewrite (join_relative path d Hns).
  unfold dir_prefix at 1.
  rewrite (endswith_name_false _ d Hne Hns).
  assert (truthy (dir_prefix path ++ d) = true) as ->.
  { destruct d; [contradiction|]. destruct (dir_prefix path); reflexivity. }
  simpl. rewrite <- app_assoc. reflexivity.
Qed.

(** Two slash-free names followed by a slash: the names are equal when the
    texts are. *)
Lemma slash_terminated_inj (d d' r r' : str) :
  ~ In chr_slash d -> ~ In chr_slash d' ->
  d ++ chr_slash :: r = d' ++ chr_slash :: r' -> d = d'.
Proof.
  revert d'. induction d as [|c d IH]; intros [|c' d'] Hd Hd' E; simpl in *.
  - reflexivity.
  - injection E as E _. exfalso. apply Hd'. left. symmetry. exact E.
  - injection E as E _. exfalso. apply Hd. left. exact E.
  - injection E as -> E. f_equal. apply IH; [tauto | tauto | exact E].
Qed.

(** ** The tree walker *)

Section Walker.

Variable cwd : str.
Variable root_path : str.
Variable ignore_patterns : option (list str).
Variable include_hidden : bool.

Let ignored (p : str) : bool :=
  should_ignore cwd p ignore_patterns root_path include_hidden.
Let walk_files' := walk_files cwd root_path ignore_patterns include_hidden.
Let walk' := walk cwd root_path ignore_patterns include_hidden.
Let walk_dirs' := walk_dirs cwd root_path ignore_patterns include_hidden.

Lemma walk_files_in(dirpath : str) (entries : list (str * node)) (p : str) :
  In p (walk_files' dirpath entries) <->
  exists name contents,
    In (name, File contents) entries
    /\ p = join dirpath name
    /\ ignored p = false
    /\ endswith name suffix_py = true.
Proof.
  unfold walk_files', ignored.
  induction entries as [|[name [contents|sub]] es IH]; cbn [walk_files].
  - split; [intros [] | intros (? & ? & [] & _)].
  - rewrite in_app_iff, IH. split.
    + intros [H|(n & c & Hin & H)].
      * destruct (should_ignore cwd (join dirpath name) _ _ _) eqn:Hi;
          [destruct H|].
        destruct (endswith name suffix_py) eqn:He; [|destruct H].
        destruct H as [<-|[]]. exists name, contents.
        split; [left; reflexivity | auto].
      * exists n, c. split; [right; exact Hin | exact H].
    + intros (n & c & [[= <- <-]|Hin] & -> & Hi & He).
      * left. rewrite Hi, He. left. reflexivity.
      * right. exists n, c. auto.
  - rewrite IH. split; intros (n & c & Hin & H); exists n, c.
    + split; [right; exact Hin | exact H].
    + destruct Hin as [[=]|Hin]. auto.
Qed.

Lemma walk_dir_eq (dirpath : str) (entries : list (str * node)) :
  walk' dirpath (Dir entries)
  = walk_files' dirpath entries ++ walk_dirs' dirpath entries.
Proof.
  unfold walk', walk_files', walk_dirs'. cbn [walk]. f_equal.
  induction entries as [|[name [contents|sub]] es IH]; cbn [walk_dirs].
  - reflexivity.
  - exact IH.
  - rewrite <- IH. reflexivity.
Qed.

(** One level of the walk: the files of the directory, then what the
    walk of each directory that is not ignored yields. *)
Lemma walk_dirs_in (dirpath : str) (entries : list (str * node)) (p : str) :
  In p (walk_dirs' dirpath entries) <->
  exists d sub,
    In (d, Dir sub) entries
    /\ ignored (join dirpath d) = false
    /\ In p (walk' (join dirpath d) (Dir sub)).
Proof.
  unfold walk', walk_dirs', ignored.
  induction entries as [|[name [contents|sub]] es IH]; cbn [walk_dirs].
  - split; [intros [] | intros (? & ? & [] & _)].
  - rewrite IH. split; intros (d & s & Hin & H); exists d, s.
    + split; [right; exact Hin | exact H].
    + destruct Hin as [[=]|Hin]. auto.
  - rewrite in_app_iff, IH. split.
    + intros [H|(d & s & Hin & H)].
      * destruct (should_ignore cwd (join dirpath name) _ _ _) eqn:Hi;
          [destruct H|].
        exists name, sub. split; [left; reflexivity | auto].
      * exists d, s. split; [right; exact Hin | exact H].
    + intros (d & s & [Heq|Hin] & Hi & Hp).
      * injection Heq as <- <-. left. rewrite Hi. exact Hp.
      * right. exists d, s. auto.
Qed.

Lemma walk_dir_in (dirpath : str) (entries : list (str * node)) (p : str) :
  In p (walk' dirpath (Dir entries)) <->
  In p (walk_files' dirpath entries)
  \/ exists d sub,
       In (d, Dir sub) entries
       /\ ignored (join dirpath d) = false
       /\ In p (walk' (join dirpath d) (Dir sub)).
Proof.
  rewrite walk_dir_eq, in_app_iff. apply or_iff_compat_l, walk_dirs_in.
Qed.

Lemma subdir_nil_inv (entries below : list (str * node)) :
  subdir entries [] below -> below = entries.
Proof. inversion 1. reflexivity. Qed.

Lemma subdir_cons_inv (entries below : list (str * node)) (d : str)
      (ds : list str) :
  subdir entries (d :: ds) below ->
  exists sub, In (d, Dir sub) entries /\ subdir sub ds below.
Proof. inversion 1; subst. eauto. Qed.

(** The walker yields exactly the kept files. *)
Lemma walk_in (n : node) :
  forall dirpath p,
    In p (walk' dirpath n) <->
    match n with
    | File _ => False
    | Dir entries =>
        kept_file cwd ignore_patterns root_path include_hidden
                  dirpath entries p
    end.
Proof.
  induction n as [contents|entries IH] using node_nested_ind; intros dirpath p.
  - reflexivity.
  - rewrite walk_dir_in, walk_files_in. unfold kept_file. split.
    + intros [(name & c & Hin & -> & Hi & He)|(d & sub & Hin & Hi & Hp)].
      * exists [], name, c, entries.
        split; [constructor|]. split; [exact Hin|].
        split; [reflexivity|]. split; [simpl; intros k Hk; lia|].
        split; [exact Hi | exact He].
      * rewrite List.Forall_forall in IH. apply (IH (d, Dir sub) Hin) in Hp.
        destruct Hp as (ds & name & c & below & Hs & Hf & -> & Hds & Hip & He).
        exists (d :: ds), name, c, below.
        split; [econstructor; eassumption|]. split; [exact Hf|].
        split; [reflexivity|]. split; [|split; [exact Hip | exact He]].
        intros [|k] Hk; [exact Hi|]. apply Hds. simpl in Hk. lia.
    + intros (ds & name & c & below & Hs & Hf & -> & Hds & Hip & He).
      destruct ds as [|d ds].
      * apply subdir_nil_inv in Hs as ->. left. exists name, c. auto.
      * apply subdir_cons_inv in Hs as (sub & Hin & Hs). right.
        exists d, sub. split; [exact Hin|].
        split; [apply (Hds 0); simpl; lia|].
        rewrite List.Forall_forall in IH. apply (IH (d, Dir sub) Hin).
        exists ds, name, c, below.
        split; [exact Hs|]. split; [exact Hf|]. split; [reflexivity|].
        split; [|split; [exact Hip | exact He]].
        intros k Hk. apply (Hds (S k)). simpl. lia.
Qed.

(** *** Every path is yielded once *)

Lemma wf_dir_inv (entries : list (str * node)) :
  wf_node (Dir entries) = true ->
  List.NoDup (List.map fst entries)
  /\ forall name sub,
       In (name, sub) entries ->
       valid_name name = true /\ wf_node sub = true.
Proof.
  cbn [wf_node]. intros [Hnd Hall]%andb_true_iff. split.
  - apply bool_decide_eq_true in Hnd. apply NoDup_ListNoDup, Hnd.
  - clear Hnd. induction entries as [|[n s] es IH]; intros name sub [].
    + apply andb_true_iff in Hall as [[Hv Hw]%andb_true_iff _].
      injection H as <- <-. split; assumption.
    + apply andb_true_iff in Hall as [_ Hall]. apply IH; assumption.
Qed.

Lemma walk_files_names (dirpath : str) (entries : list (str * node)) (p : str) :
  In p (walk_files' dirpath entries) ->
  exists name, In name (List.map fst entries) /\ p = join dirpath name.
Proof.
  intros (name & c & Hin & -> & _)%walk_files_in.
  exists name. split; [|reflexivity].
  apply in_map_iff. exists (name, File c). split; [reflexivity | exact Hin].
Qed.

Lemma join_inj (dirpath a b : str) :
  ~ In chr_slash a -> ~ In chr_slash b ->
  join dirpath a = join dirpath b -> a = b.
Proof.
  intros Ha Hb. rewrite !join_relative by assumption.
  apply app_inv_head.
Qed.

Lemma walk_files_nodup (dirpath : str) (entries : list (str * node)) :
  List.NoDup (List.map fst entries) ->
  (forall name sub, In (name, sub) entries -> valid_name name = true) ->
  List.NoDup (walk_files' dirpath entries).
Proof.
  induction entries as [|[name [contents|sub]] es IH]; intros Hnd Hv.
  - constructor.
  - apply List.NoDup_cons_iff in Hnd as [Hname Hnd].
    assert (List.NoDup (walk_files' dirpath es)) as Hes.
    { apply IH; [exact Hnd|]. intros n s Hin. apply (Hv n s). right. exact Hin. }
    unfold walk_files' in *. cbn [walk_files].
    destruct (should_ignore cwd (join dirpath name) _ _ _); [exact Hes|].
    destruct (endswith name suffix_py); [|exact Hes].
    simpl. constructor; [|exact Hes].
    intros (n & Hn & E)%walk_files_names.
    apply join_inj in E.
    + subst n. apply Hname, Hn.
    + apply valid_name_no_slash, (Hv name (File contents)). left. reflexivity.
    + apply in_map_iff in Hn as ([n' s'] & <- & Hin).
      apply valid_name_no_slash, (Hv n' s'). right. exact Hin.
  - apply List.NoDup_cons_iff in Hnd as [_ Hnd].
    unfold walk_files' in *. cbn [walk_files].
    apply IH; [exact Hnd|]. intros n s Hin. apply (Hv n s). right. exact Hin.
Qed.

(** What the walk of a well-formed tree yields under [dirpath] starts
    with the directory prefix of [dirpath]. *)
Lemma walk_shape (n : node) :
  forall dirpath p,
    wf_node n = true -> In p (walk' dirpath n) ->
    exists rest, p = dir_prefix dirpath ++ rest.
Proof.
  induction n as [contents|entries IH] using node_nested_ind;
    intros dirpath p Hwf Hin.
  - destruct Hin.
  - destruct (wf_dir_inv entries Hwf) as [_ Hent].
    apply walk_dir_in in Hin as [Hin|(d & sub & Hd & _ & Hin)].
    + apply walk_files_in in Hin as (name & c & Hn & -> & _).
      exists name. apply join_relative, valid_name_no_slash.
      apply (Hent name (File c) Hn).
    + destruct (Hent d (Dir sub) Hd) as [Hv Hw].
      rewrite List.Forall_forall in IH.
      destruct (IH (d, Dir sub) Hd (join dirpath d) p Hw Hin) as [rest ->].
      rewrite (dir_prefix_join dirpath d Hv).
      exists (d ++ sep ++ rest). rewrite <- !app_assoc. reflexivity.
Qed.

Lemma walk_sub_shape (dirpath d : str) (sub : node) (p : str) :
  valid_name d = true -> wf_node sub = true ->
  In p (walk' (join dirpath d) sub) ->
  exists rest, p = dir_prefix dirpath ++ d ++ chr_slash :: rest.
Proof.
  intros Hv Hw Hin.
  destruct (walk_shape sub (join dirpath d) p Hw Hin) as [rest ->].
  rewrite (dir_prefix_join dirpath d Hv).
  exists rest. rewrite <- !app_assoc. reflexivity.
Qed.

Lemma walk_dirs_nodup (dirpath : str) (entries : list (str * node)) :
  List.NoDup (List.map fst entries) ->
  (forall name sub, In (name, sub) entries ->
                    valid_name name = true /\ wf_node sub = true) ->
  Forall (fun e => forall dirpath,
              wf_node (snd e) = true -> List.NoDup (walk' dirpath (snd e)))
         entries ->
  List.NoDup (walk_dirs' dirpath entries).
Proof.
  induction entries as [|[name [contents|sub]] es IH]; intros Hnd Hent Hrec.
  - constructor.
  - apply List.NoDup_cons_iff in Hnd as [_ Hnd].
    apply List.Forall_cons_iff in Hrec as [_ Hrec].
    unfold walk_dirs' in *. cbn [walk_dirs].
    apply IH; [exact Hnd | | exact Hrec].
    intros n s Hin. apply (Hent n s). right. exact Hin.
  - apply List.NoDup_cons_iff in Hnd as [Hname Hnd].
    apply List.Forall_cons_iff in Hrec as [Hsub Hrec].
    destruct (Hent name (Dir sub)) as [Hv Hw]; [left; reflexivity|].
    assert (List.NoDup (walk_dirs' dirpath es)) as Hes.
    { apply IH; [exact Hnd | | exact Hrec].
      intros n s Hin. apply (Hent n s). right. exact Hin. }
    unfold walk_dirs' in *. cbn [walk_dirs].
    destruct (should_ignore cwd (join dirpath name) _ _ _); [exact Hes|].
    apply List.NoDup_app; [apply (Hsub _ Hw) | exact Hes|].
    intros p Hp Hp'.
    apply (walk_sub_shape dirpath name (Dir sub) p Hv Hw) in Hp as [r E].
    apply walk_dirs_in in Hp' as (d & s & Hd & _ & Hp').
    destruct (Hent d (Dir s)) as [Hv' Hw']; [right; exact Hd|].
    apply (walk_sub_shape dirpath d (Dir s) p Hv' Hw') in Hp' as [r' E'].
    rewrite E in E'. apply app_inv_head in E'.
    apply slash_terminated_inj in E';
      [|apply valid_name_no_slash; assumption..].
    subst d. apply Hname. apply in_map_iff.
    exists (name, Dir s). split; [reflexivity | exact Hd].
Qed.

Lemma walk_nodup (n : node) :
  forall dirpath, wf_node n = true -> List.NoDup (walk' dirpath n).
Proof.
  induction n as [contents|entries IH] using node_nested_ind;
    intros dirpath Hwf.
  - constructor.
  - destruct (wf_dir_inv entries Hwf) as [Hnd Hent].
    rewrite walk_dir_eq. apply List.NoDup_app.
    + apply walk_files_nodup; [exact Hnd|].
      intros name sub Hin. apply (Hent name sub Hin).
    + apply walk_dirs_nodup; assumption.
    + intros p (name & c & Hn & -> & _)%walk_files_in Hp.
      apply walk_dirs_in in Hp as (d & s & Hd & _ & Hp).
      destruct (Hent d (Dir s) Hd) as [Hv Hw].
      apply (walk_sub_shape dirpath d (Dir s) _ Hv Hw) in Hp as [r E].
      destruct (Hent name (File c) Hn) as [Hvn _].
      rewrite (join_relative dirpath name) in E
        by (apply valid_name_no_slash, Hvn).
      apply app_inv_head in E.
      apply (valid_name_no_slash name Hvn). rewrite E.
      apply in_app_iff. right. left. reflexivity.
Qed.

End Walker.

(** ** Absolute paths and path resolution *)

Lemma isabs_cons (p : str) :
  isabs p = true -> exists r, p = chr_slash :: r.
Proof.
  unfold isabs. destruct p as [|c r]; [discriminate|].
  rewrite startswith_sep_cons. intros ->%N.eqb_eq. eauto.
Qed.

Lemma normpath_isabs (p : str) : isabs p = true -> isabs (normpath p) = true.
Proof.
  intros Hp. destruct (isabs_cons p Hp) as [r ->].
  unfold normpath. unfold str_eqb at 1.
  rewrite bool_decide_eq_false_2 by discriminate.
  unfold isabs in Hp. rewrite Hp.
  destruct (startswith (chr_slash :: r) (sep ++ sep)
            && negb (startswith (chr_slash :: r) (sep ++ sep ++ sep)));
    cbn [List.repeat app truthy]; unfold isabs;
    rewrite startswith_sep_cons; reflexivity.
Qed.

Lemma join_isabs (a b : str) : isabs a = true -> isabs (join a b) = true.
Proof.
  intros Ha. destruct (isabs_cons a Ha) as [r ->]. unfold join.
  destruct (startswith b sep) eqn:Hb; [exact Hb|].
  destruct (negb (truthy (chr_slash :: r)) || endswith (chr_slash :: r) sep);
    cbn [app]; unfold isabs; rewrite startswith_sep_cons; reflexivity.
Qed.

(** [abspath] returns an absolute path, the current directory being one. *)
Lemma abspath_isabs (cwd p : str) :
  isabs cwd = true -> isabs (abspath cwd p) = true.
Proof.
  intros Hc. unfold abspath. destruct (isabs p) eqn:Hp; simpl.
  - apply normpath_isabs, Hp.
  - apply normpath_isabs, join_isabs, Hc.
Qed.

Lemma dir_prefix_isabs (p rest : str) :
  isabs p = true -> isabs (dir_prefix p ++ rest) = true.
Proof.
  intros Hp. destruct (isabs_cons p Hp) as [r ->]. unfold dir_prefix.
  destruct (negb (truthy (chr_slash :: r)) || endswith (chr_slash :: r) sep);
    cbn [app]; unfold isabs; rewrite startswith_sep_cons; reflexivity.
Qed.

Lemma lookup_entry_in (name : str) (entries : list (str * node)) (child : node) :
  lookup_entry name entries = Some child -> In (name, child) entries.
Proof.
  induction entries as [|[n x] es IH]; simpl; [discriminate|].
  unfold str_eqb. case_bool_decide as E.
  - intros [= <-]. left. rewrite E. reflexivity.
  - intros H. right. apply IH, H.
Qed.

(** Resolution inside a well-formed tree reaches well-formed nodes. *)
Lemma namei_wf (comps : list str) :
  forall ancestors cur ancestors' n,
    Forall (fun a => wf_node a = true) ancestors ->
    wf_node cur = true ->
    namei ancestors cur comps = Some (ancestors', n) ->
    Forall (fun a => wf_node a = true) ancestors' /\ wf_node n = true.
Proof.
  induction comps as [|comp comps IH]; intros anc cur anc' n Ha Hc; simpl.
  - intros [= <- <-]. split; assumption.
  - destruct cur as [contents|entries]; [discriminate|].
    destruct (str_eqb comp [] || str_eqb comp curdir).
    + apply IH; assumption.
    + destruct (str_eqb comp pardir).
      * destruct anc as [|parent above].
        -- apply IH; assumption.
        -- apply List.Forall_cons_iff in Ha as [Hp Ha]. apply IH; assumption.
      * destruct (lookup_entry comp entries) as [child|] eqn:E; [|discriminate].
        apply lookup_entry_in in E.
        destruct (wf_dir_inv entries Hc) as [_ Hent].
        apply IH; [constructor; assumption | apply (Hent comp child E)].
Qed.

Lemma resolve_wf (cwd : str) (fs : node) (path : str) (n : node) :
  wf_node fs = true -> resolve cwd fs path = Some n -> wf_node n = true.
Proof.
  intros Hwf. unfold resolve.
  destruct (negb (truthy path)); [discriminate|].
  destruct (isabs path).
  - destruct (namei [] fs _) as [[anc x]|] eqn:E; [|discriminate].
    intros [= <-]. apply (namei_wf _ _ _ _ _ (List.Forall_nil _) Hwf E).
  - destruct (namei [] fs (split chr_slash (-1) cwd)) as [[anc d]|] eqn:Ec;
      [|discriminate].
    destruct (namei anc d _) as [[anc' x]|] eqn:E; [|discriminate].
    intros [= <-].
    destruct (namei_wf _ _ _ _ _ (List.Forall_nil _) Hwf Ec) as [Hanc Hd].
    apply (namei_wf _ _ _ _ _ Hanc Hd E).
Qed.

(** ** The file counter and the aggregator *)

Section Aggregator.

Variable cwd : str.
Variable fs : node.

Let count := count_file_loc cwd fs.

(** The loop adds one per line the classifier accepts, whether the
    iteration ends with the file or with an error. *)
Lemma count_lines_filter (fh : line_iter) :
  forall loc,
    count_lines loc fh
    = (loc + Z.of_nat (length (List.filter is_code_line (lines_of fh))))%Z.
Proof.
  induction fh as [| |raw_line rest IH]; intros loc; simpl.
  - lia.
  - lia.
  - rewrite IH. destruct (is_code_line raw_line); simpl length; lia.
Qed.

Lemma count_file_loc_nonneg (path : str) : (0 <= count path)%Z.
Proof.
  unfold count, count_file_loc. destruct (open cwd fs path) as [|fh].
  - lia.
  - rewrite count_lines_filter. lia.
Qed.

(** The loop of [count_loc], as a whole. *)
Lemma fold_count_step (per_file : bool) (paths : list str) :
  forall total d,
    fold_left (count_step cwd fs per_file) paths (total, d)
    = ((total + fold_right Z.add 0 (List.map count paths))%Z,
       if per_file
       then fold_left (fun d p => <[p := count p]> d) paths d
       else d).
Proof.
  induction paths as [|p paths IH]; intros total d; simpl.
  - destruct per_file; f_equal; lia.
  - rewrite IH. destruct per_file; f_equal; unfold count; lia.
Qed.

Lemma fold_insert_lookup (paths : list str) :
  forall (d : gmap (list N) Z) (q : list N),
    (In q paths ->
     fold_left (fun d p => <[p := count p]> d) paths d !! q = Some (count q))
    /\ (~ In q paths ->
        fold_left (fun d p => <[p := count p]> d) paths d !! q = d !! q).
Proof.
  induction paths as [|p paths IH]; intros d q; simpl.
  - split; [intros [] | reflexivity].
  - destruct (IH (<[p := count p]> d) q) as [IHin IHout]. split.
    + intros [->|Hin].
      * destruct (decide (q ∈ paths)) as [Hq|Hq];
          rewrite list_elem_of_In in Hq; [apply IHin, Hq|].
        rewrite (IHout Hq). apply lookup_insert_eq.
      * apply IHin, Hin.
    + intros Hn. rewrite IHout by tauto.
      apply lookup_insert_ne. intros ->. apply Hn. left. reflexivity.
Qed.

Lemma dict_sum_insert (d : gmap (list N) Z) (p : list N) (v : Z) :
  d !! p = None -> dict_sum (<[p := v]> d) = (v + dict_sum d)%Z.
Proof.
  intros Hp. unfold dict_sum.
  apply (map_fold_insert_L (fun _ file_loc acc => (file_loc + acc)%Z));
    [|exact Hp].
  intros. lia.
Qed.

Lemma fold_insert_sum (paths : list str) :
  List.NoDup paths ->
  forall d : gmap (list N) Z,
    (forall p, In p paths -> d !! p = None) ->
    dict_sum (fold_left (fun d p => <[p := count p]> d) paths d)
    = (dict_sum d + fold_right Z.add 0 (List.map count paths))%Z.
Proof.
  induction 1 as [|p paths Hp Hnd IH]; intros d Hd; simpl.
  - lia.
  - rewrite IH.
    + rewrite dict_sum_insert by (apply Hd; left; reflexivity). lia.
    + intros q Hq. rewrite lookup_insert_ne.
      * apply Hd. right. exact Hq.
      * intros ->. contradiction.
Qed.

Lemma count_loc_unfold (root_path : str) (per_file : bool)
      (ignore_patterns : option (list str)) (include_hidden : bool) :
  let paths :=
    iter_python_files cwd fs root_path ignore_patterns include_hidden in
  let total := fold_right Z.add 0%Z (List.map count paths) in
  count_loc cwd fs root_path per_file ignore_patterns include_hidden
  = if per_file
    then PerFile (fold_left (fun d p => <[p := count p]> d) paths ∅) total
    else Total total.
Proof.
  intros paths total. unfold count_loc. fold paths.
  rewrite fold_count_step. destruct per_file; reflexivity.
Qed.

End Aggregator.

(** ** The walker, from its root *)

Section Root.

Variable cwd : str.
Variable fs : node.

Lemma iter_python_files_unfold (root_path : str)
      (ignore_patterns : option (list str)) (include_hidden : bool) :
  iter_python_files cwd fs root_path ignore_patterns include_hidden
  = match scandir cwd fs (abspath cwd root_path) with
    | None => []
    | Some entries =>
        walk cwd (abspath cwd root_path) (Some (patterns_of ignore_patterns))
             include_hidden (abspath cwd root_path) (Dir entries)
    end.
Proof.
  unfold iter_python_files.
  destruct ignore_patterns as [[|p ps]|]; reflexivity.
Qed.

Lemma scandir_wf (top : str) (entries : list (str * node)) :
  wf_node fs = true -> scandir cwd fs top = Some entries ->
  wf_node (Dir entries) = true.
Proof.
  intros Hwf. unfold scandir.
  destruct (resolve cwd fs top) as [[c|es]|] eqn:E; try discriminate.
  intros [= <-]. apply (resolve_wf cwd fs top _ Hwf E).
Qed.

Lemma iter_python_files_nodup (root_path : str)
      (ignore_patterns : option (list str)) (include_hidden : bool) :
  wf_node fs = true ->
  List.NoDup
    (iter_python_files cwd fs root_path ignore_patterns include_hidden).
Proof.
  intros Hwf. rewrite iter_python_files_unfold.
  destruct (scandir cwd fs (abspath cwd root_path)) as [entries|] eqn:E.
  - apply walk_nodup, (scandir_wf _ _ Hwf E).
  - constructor.
Qed.

(** Walks that agree on what is ignored yield the same paths. *)
Lemma walk_ext (root_path : str) (pats pats' : option (list str))
      (include_hidden : bool) (n : node) :
  (forall p, In p (patterns_of pats) <-> In p (patterns_of pats')) ->
  forall dirpath,
    walk cwd root_path pats include_hidden dirpath n
    = walk cwd root_path pats' include_hidden dirpath n.
Proof.
  intros Hp.
  induction n as [contents|entries IH] using node_nested_ind; intros dirpath.
  - reflexivity.
  - rewrite !walk_dir_eq. f_equal.
    + clear IH.
      induction entries as [|[name [c|sub]] es IHes]; cbn [walk_files].
      * reflexivity.
      * rewrite IHes.
        rewrite (should_ignore_ext cwd _ pats pats' _ _ Hp). reflexivity.
      * exact IHes.
    + induction entries as [|[name [c|sub]] es IHes]; cbn [walk_dirs].
      * reflexivity.
      * apply List.Forall_cons_iff in IH as [_ IH]. apply IHes, IH.
      * apply List.Forall_cons_iff in IH as [Hsub IH]. cbn [snd] in Hsub.
        rewrite (IHes IH), (Hsub (join dirpath name)).
        rewrite (should_ignore_ext cwd _ pats pats' _ _ Hp). reflexivity.
Qed.

End Root.

(** ** Opening what the walker yields

    The walker builds its paths with [join]; [open] resolves them again
    from the root of the file system.  In a well-formed tree both name the
    same file. *)

Lemma split_nonempty (c : char) (m : Z) (s : str) : split c m s <> [].
Proof.
  destruct s as [|x s]; simpl; [discriminate|].
  destruct ((x =? c)%N && negb (m =? 0)%Z); [discriminate|].
  destruct (split c m s); discriminate.
Qed.

(** Without a limit the count of splits left never reaches 0. *)
Lemma split_negative (c : char) (s : str) :
  forall m, (m < 0)%Z -> split c m s = split c (-1) s.
Proof.
  induction s as [|x s IH]; intros m Hm; simpl; [reflexivity|].
  assert ((m =? 0)%Z = false) as -> by lia.
  destruct (x =? c)%N; simpl.
  - rewrite (IH (m - 1)%Z), (IH (-1 - 1)%Z) by lia. reflexivity.
  - rewrite (IH m Hm). reflexivity.
Qed.

Lemma split_cons (c x : char) (s : str) :
  split c (-1) (x :: s)
  = if (x =? c)%N then [] :: split c (-1) s
    else match split c (-1) s with
         | piece :: pieces => (x :: piece) :: pieces
         | [] => [[x]]
         end.
Proof.
  simpl. destruct (x =? c)%N; simpl; [|reflexivity].
  rewrite (split_negative c s (-1 - 1)%Z) by lia. reflexivity.
Qed.

Lemma split_app_sep (c : char) (a b : str) :
  split c (-1) (a ++ c :: b) = split c (-1) a ++ split c (-1) b.
Proof.
  induction a as [|x a IH]; cbn [app].
  - rewrite split_cons, N.eqb_refl. reflexivity.
  - rewrite !split_cons. destruct (x =? c)%N.
    + rewrite IH. reflexivity.
    + rewrite IH. destruct (split c (-1) a) eqn:Ea; [|reflexivity].
      exfalso. apply (split_nonempty c (-1) a Ea).
Qed.

Lemma split_without_sep (c : char) (s : str) :
  ~ In c s -> split c (-1) s = [s].
Proof.
  induction s as [|x s IH]; intros Hc; [reflexivity|].
  rewrite split_cons.
  destruct (N.eqb_spec x c) as [->|_].
  - exfalso. apply Hc. left. reflexivity.
  - rewrite IH; [reflexivity|]. intros H. apply Hc. right. exact H.
Qed.

Lemma split_snoc_sep (c : char) (a : str) :
  split c (-1) (a ++ [c]) = split c (-1) a ++ [[]].
Proof. apply (split_app_sep c a []). Qed.

Lemma namei_app (comps1 comps2 : list str) :
  forall ancestors cur,
    namei ancestors cur (comps1 ++ comps2)
    = match namei ancestors cur comps1 with
      | Some (ancestors', n) => namei ancestors' n comps2
      | None => None
      end.
Proof.
  induction comps1 as [|comp comps1 IH]; intros anc cur; simpl.
  - reflexivity.
  - destruct cur as [contents|entries]; [reflexivity|].
    destruct (str_eqb comp [] || str_eqb comp curdir); [apply IH|].
    destruct (str_eqb comp pardir).
    + destruct anc; apply IH.
    + destruct (lookup_entry comp entries); [apply IH | reflexivity].
Qed.

Lemma lookup_entry_nodup (name : str) (x : node) (entries : list (str * node)) :
  List.NoDup (List.map fst entries) ->
  In (name, x) entries -> lookup_entry name entries = Some x.
Proof.
  induction entries as [|[n y] es IH]; intros Hnd Hin; [destruct Hin|].
  simpl in Hnd. apply List.NoDup_cons_iff in Hnd as [Hn Hnd].
  simpl. unfold str_eqb. destruct Hin as [[= -> ->]|Hin].
  - rewrite bool_decide_eq_true_2; reflexivity.
  - rewrite bool_decide_eq_false_2; [apply IH; assumption|].
    intros ->. apply Hn. apply in_map_iff.
    exists (name, x). split; [reflexivity | exact Hin].
Qed.

(** Resolving one valid name inside a directory. *)
Lemma namei_name (ancestors : list node) (entries : list (str * node))
      (name : str) (x : node) :
  wf_node (Dir entries) = true ->
  In (name, x) entries ->
  namei ancestors (Dir entries) [name] = Some (Dir entries :: ancestors, x).
Proof.
  intros Hwf Hin. destruct (wf_dir_inv entries Hwf) as [Hnd Hent].
  destruct (Hent name x Hin) as [Hv _].
  simpl. unfold valid_name in Hv.
  apply andb_true_iff in Hv as [Hv Hpar].
  apply andb_true_iff in Hv as [Hv Hcur].
  apply andb_true_iff in Hv as [Hne _].
  apply negb_true_iff in Hpar, Hcur. rewrite Hpar, Hcur.
  assert (str_eqb name [] = false) as ->.
  { destruct name; [discriminate|]. unfold str_eqb.
    apply bool_decide_eq_false_2. discriminate. }
  simpl. rewrite (lookup_entry_nodup name x entries Hnd Hin). reflexivity.
Qed.

(** Resolving [join(dirpath, name)], given how [dirpath] resolves. *)
Lemma namei_join (fs : node) (dirpath name : str) (ancestors : list node)
      (entries : list (str * node)) (x : node) :
  namei [] fs (split chr_slash (-1) dirpath) = Some (ancestors, Dir entries) ->
  wf_node (Dir entries) = true ->
  In (name, x) entries ->
  namei [] fs (split chr_slash (-1) (join dirpath name))
  = Some (Dir entries :: ancestors, x).
Proof.
  intros Hdir Hwf Hin.
  destruct (wf_dir_inv entries Hwf) as [_ Hent].
  destruct (Hent name x Hin) as [Hv _].
  pose proof (valid_name_no_slash name Hv) as Hns.
  rewrite (join_relative dirpath name Hns). unfold dir_prefix.
  destruct (negb (truthy dirpath) || endswith dirpath sep) eqn:E.
  - apply orb_true_iff in E as [E|E].
    + destruct dirpath; [|discriminate]. simpl in Hdir. simpl app.
      rewrite (split_without_sep chr_slash name Hns).
      destruct fs as [c|es]; [discriminate|].
      injection Hdir as <- <-. apply namei_name; assumption.
    + unfold endswith in E. simpl in E.
      destruct (rev dirpath) as [|c r] eqn:Er; [discriminate|].
      rewrite startswith_sep_cons in E. apply N.eqb_eq in E. subst c.
      assert (dirpath = rev r ++ [chr_slash]) as ->.
      { rewrite <- (rev_involutive dirpath), Er. reflexivity. }
      rewrite split_snoc_sep, namei_app in Hdir.
      rewrite <- app_assoc. simpl app.
      rewrite split_app_sep, namei_app.
      destruct (namei [] fs (split chr_slash (-1) (rev r)))
        as [[anc cur]|]; [|discriminate].
      destruct cur as [c|es]; [discriminate|].
      simpl in Hdir. injection Hdir as <- <-.
      rewrite (split_without_sep chr_slash name Hns).
      apply namei_name; assumption.
  - unfold sep. rewrite <- app_assoc. simpl app.
    rewrite split_app_sep, namei_app, Hdir.
    rewrite (split_without_sep chr_slash name Hns).
    apply namei_name; assumption.
Qed.

Lemma resolve_absolute (cwd : str) (fs : node) (path : str) :
  isabs path = true ->
  resolve cwd fs path = option_map snd (namei [] fs (split chr_slash (-1) path)).
Proof.
  intros Hp. unfold resolve. rewrite Hp.
  destruct (isabs_cons path Hp) as [r ->]. reflexivity.
Qed.

(** A file reached from [dirpath] through the directories [ds] is what
    [open] finds under the joined path. *)
Lemma open_joined (cwd : str) (fs : node) (ds : list str) :
  forall (dirpath : str) (ancestors : list node)
         (entries below : list (str * node)) (name : str)
         (contents : open_result),
    isabs dirpath = true ->
    namei [] fs (split chr_slash (-1) dirpath) = Some (ancestors, Dir entries) ->
    wf_node (Dir entries) = true ->
    subdir entries ds below ->
    In (name, File contents) below ->
    open cwd fs (join_all dirpath (ds ++ [name])) = contents.
Proof.
  induction ds as [|d ds IH];
    intros dirpath anc entries below name contents Ha Hdir Hwf Hsub Hin.
  - apply subdir_nil_inv in Hsub as ->. simpl. unfold open.
    rewrite (resolve_absolute cwd fs _ (join_isabs dirpath name Ha)).
    rewrite (namei_join fs dirpath name anc entries _ Hdir Hwf Hin).
    reflexivity.
  - apply subdir_cons_inv in Hsub as (sub & Hd & Hsub).
    destruct (wf_dir_inv entries Hwf) as [_ Hent].
    destruct (Hent d (Dir sub) Hd) as [_ Hw].
    simpl. apply (IH (join dirpath d) (Dir entries :: anc) sub below).
    + apply join_isabs, Ha.
    + apply (namei_join fs dirpath d anc entries _ Hdir Hwf Hd).
    + exact Hw.
    + exact Hsub.
    + exact Hin.
Qed.

(** Every path the walker yields opens the file it was yielded for. *)
Lemma open_yielded (cwd : str) (fs : node) (root_path : str)
      (ignore_patterns : option (list str)) (include_hidden : bool) (p : str) :
  isabs cwd = true ->
  wf_node fs = true ->
  In p (iter_python_files cwd fs root_path ignore_patterns include_hidden) ->
  exists entries ds below name contents,
    scandir cwd fs (abspath cwd root_path) = Some entries
    /\ subdir entries ds below
    /\ In (name, File contents) below
    /\ p = join_all (abspath cwd root_path) (ds ++ [name])
    /\ open cwd fs p = contents.
Proof.
  intros Hcwd Hwf. rewrite iter_python_files_unfold.
  destruct (scandir cwd fs (abspath cwd root_path)) as [entries|] eqn:E;
    [|intros []].
  intros Hin. apply (walk_in cwd _ _ _ (Dir entries)) in Hin.
  destruct Hin as (ds & name & c & below & Hsub & Hf & -> & _).
  exists entries, ds, below, name, c.
  split; [reflexivity|]. split; [exact Hsub|]. split; [exact Hf|].
  split; [reflexivity|].
  pose proof (abspath_isabs cwd root_path Hcwd) as Habs.
  pose proof (scandir_wf cwd fs _ _ Hwf E) as Hw.
  unfold scandir in E. rewrite (resolve_absolute cwd fs _ Habs) in E.
  destruct (namei [] fs (split chr_slash (-1) (abspath cwd root_path)))
    as [[anc [c'|es]]|] eqn:En; try discriminate.
  simpl in E. injection E as ->.
  apply (open_joined cwd fs ds _ anc entries below name c Habs En Hw Hsub Hf).
Qed.

(** * The claims of the specification *)

(** C1.  [is_code_line] returns false when the stripped line is empty or
    the first character that is not whitespace is ['#']; otherwise it
    returns true exactly when the text of the stripped line before its
    first ['#'], stripped again, is not empty.  Quotes play no part: a
    ['#'] inside a string literal ends the code like any other. *)
Theorem is_code_line_refines_spec (line : str) :
  is_code_line line = is_code_line_spec line.
Proof.
  rewrite is_code_line_first. unfold is_code_line_spec.
  destruct (first_non_space line) as [c|] eqn:E.
  - destruct (strip_first_some line c E) as (r & Hr & Hc).
    rewrite Hr. cbn [truthy negb orb].
    destruct (c =? chr_hash)%N eqn:Hh; [reflexivity|].
    cbn [before_hash negb]. rewrite Hh.
    unfold strip. cbn [lstrip]. rewrite Hc.
    rewrite rstrip_cons by exact Hc. reflexivity.
  - rewrite (strip_first_none line E). reflexivity.
Qed.



(** C3.  A path whose basename starts with ['.'] is ignored whenever
    [include_hidden] is false, whatever the pattern list (empty or not):
    the patterns are not looked at.  When [include_hidden] is true the
    hidden basename does not exclude the path: it is ignored only if some
    pattern excludes it. *)
Theorem should_ignore_hidden_rule (cwd path : str)
        (ignore_patterns : option (list str)) (root_path : str) :
  startswith (basename path) [chr_dot] = true ->
  should_ignore cwd path ignore_patterns root_path false = true
  /\ (should_ignore cwd path ignore_patterns root_path true = true <->
      exists pattern,
        In pattern (patterns_of ignore_patterns)
        /\ pattern_excludes cwd path root_path pattern)
  /\ should_ignore cwd path (Some []) root_path true = false.
Proof.
  intros Hdot. split; [|split].
  - unfold should_ignore. rewrite Hdot. reflexivity.
  - rewrite should_ignore_spec. unfold hidden_excluded. simpl.
    split; [intros [?|?]; [discriminate | assumption] | tauto].
  - reflexivity.
Qed.

Lemma should_ignore_hidden_rule_witness :
  startswith (basename (py "/home/u/proj/.git")) [chr_dot] = true
  /\ should_ignore Sample.cwd (py "/home/u/proj/.git") (Some [])
                   (py "proj") false = true.
Proof.
  split; [reflexivity|].
  apply (should_ignore_hidden_rule Sample.cwd (py "/home/u/proj/.git")
           (Some []) (py "proj")). reflexivity.
Defined.

(** C4.  [iter_python_files] yields exactly the paths of the files that
    lie under the root through directories none of which is ignored, that
    are not ignored themselves and whose name ends with [.py]; the paths
    are absolute and each is yielded once.  A file that is ignored is
    skipped whatever its name, the test of the name coming second in
    [walk_files]; nothing below an ignored directory is looked at. *)
Theorem iter_python_files_yields (cwd : str) (fs : node) (root_path : str)
        (ignore_patterns : option (list str)) (include_hidden : bool) :
  isabs cwd = true ->
  wf_node fs = true ->
  let root_abs := abspath cwd root_path in
  let patterns := Some (patterns_of ignore_patterns) in
  let yielded :=
    iter_python_files cwd fs root_path ignore_patterns include_hidden in
  (forall p,
      In p yielded <->
      exists entries,
        scandir cwd fs root_abs = Some entries
        /\ kept_file cwd patterns root_abs include_hidden root_abs entries p)
  /\ List.NoDup yielded
  /\ (forall p, In p yielded -> isabs p = true).
Proof.
  intros Hcwd Hwf root_abs patterns yielded. split; [|split].
  - intros p. unfold yielded. rewrite iter_python_files_unfold.
    fold root_abs. fold patterns.
    destruct (scandir cwd fs root_abs) as [entries|] eqn:E.
    + rewrite (walk_in cwd root_abs patterns include_hidden (Dir entries)).
      split; [intros H; exists entries; auto|].
      intros (es & [= <-] & H). exact H.
    + split; [intros [] | intros (es & [=] & _)].
  - apply iter_python_files_nodup, Hwf.
  - intros p. unfold yielded. rewrite iter_python_files_unfold.
    fold root_abs. fold patterns.
    destruct (scandir cwd fs root_abs) as [entries|] eqn:E; [|intros []].
    intros Hin.
    apply walk_shape in Hin as [rest ->]; [|apply (scandir_wf _ _ _ _ Hwf E)].
    apply dir_prefix_isabs, abspath_isabs, Hcwd.
Qed.

Lemma iter_python_files_yields_witness :
  isabs Sample.cwd = true
  /\ wf_node Sample.fs = true
  /\ List.NoDup (iter_python_files Sample.cwd Sample.fs (py "proj")
                                   (Some [py "sub"]) false).
Proof.
  split; [reflexivity|]. split; [reflexivity|].
  apply (iter_python_files_yields Sample.cwd Sample.fs (py "proj")
           (Some [py "sub"]) false); reflexivity.
Defined.

(** C5.  For a file that opens and reads to its end, [count_file_loc] is
    the number of lines of the file that [is_code_line] accepts; it is not
    negative. *)
Theorem count_file_loc_readable (cwd : str) (fs : node) (path : str)
        (fh : line_iter) :
  open cwd fs path = Opened fh ->
  read_ok fh = true ->
  count_file_loc cwd fs path
  = Z.of_nat (length (List.filter is_code_line (lines_of fh)))
  /\ (0 <= count_file_loc cwd fs path)%Z.
Proof.
  intros Hopen _. split; [|apply count_file_loc_nonneg].
  unfold count_file_loc. rewrite Hopen. rewrite count_lines_filter. lia.
Qed.

Lemma count_file_loc_readable_witness :
  count_file_loc Sample.cwd Sample.fs (py "/home/u/proj/a.py") = 2%Z.
Proof.
  refine (proj1 (count_file_loc_readable Sample.cwd Sample.fs
                   (py "/home/u/proj/a.py") _ eq_refl eq_refl)).
Defined.

(** C6.  With [per_file=True], [count_loc] returns a mapping and a total:
    the keys of the mapping are exactly the paths the walker yields, each
    yielded once, every key is bound to its [count_file_loc] (a file
    without code lines stays, bound to 0), and the total is the sum of the
    values of the mapping. *)
Theorem count_loc_per_file_mapping (cwd : str) (fs : node) (root_path : str)
        (ignore_patterns : option (list str)) (include_hidden : bool) :
  wf_node fs = true ->
  let yielded :=
    iter_python_files cwd fs root_path ignore_patterns include_hidden in
  exists (d : gmap (list N) Z) (total : Z),
    count_loc cwd fs root_path true ignore_patterns include_hidden
    = PerFile d total
    /\ (forall p, is_Some (d !! p) <-> In p yielded)
    /\ List.NoDup yielded
    /\ (forall p, In p yielded -> d !! p = Some (count_file_loc cwd fs p))
    /\ total = dict_sum d.
Proof.
  intros Hwf yielded.
  pose proof (iter_python_files_nodup cwd fs root_path ignore_patterns
                include_hidden Hwf) as Hnd.
  fold yielded in Hnd.
  rewrite count_loc_unfold. cbv zeta. fold yielded.
  eexists _, _. split; [reflexivity|].
  split; [|split; [exact Hnd|split]].
  - intros p.
    destruct (fold_insert_lookup cwd fs yielded ∅ p) as [Hin Hout].
    destruct (decide (p ∈ yielded)) as [Hp|Hp]; rewrite list_elem_of_In in Hp.
    + rewrite (Hin Hp). split; [intros _; exact Hp | eauto].
    + rewrite (Hout Hp), lookup_empty.
      split; [intros [? [=]] | contradiction].
  - intros p Hp. apply (fold_insert_lookup cwd fs yielded ∅ p), Hp.
  - rewrite (fold_insert_sum cwd fs yielded Hnd ∅).
    + unfold dict_sum at 1. rewrite map_fold_empty. lia.
    + intros p _. apply lookup_empty.
Qed.

Lemma count_loc_per_file_mapping_witness :
  wf_node Sample.fs = true
  /\ exists (d : gmap (list N) Z) (total : Z),
       count_loc Sample.cwd Sample.fs (py "proj") true None false
       = PerFile d total
       /\ total = dict_sum d.
Proof.
  split; [reflexivity|].
  destruct (count_loc_per_file_mapping Sample.cwd Sample.fs (py "proj")
              None false eq_refl) as (d & total & H & _ & _ & _ & Hsum).
  exists d, total. split; assumption.
Defined.

(** C7, as the specification has it, fails: when a read raises the error
    after a code line was counted, [count_file_loc] returns that count, not
    0, and the mapping holds it.  In the sample tree [flaky.py] delivers the
    line [y = 2] and its next read fails. *)
Lemma count_file_loc_read_failure_counterexample :
  io_fails (open Sample.cwd Sample.fs (py "/home/u/proj/flaky.py")) = true
  /\ In (py "/home/u/proj/flaky.py")
        (iter_python_files Sample.cwd Sample.fs (py "proj") None false)
  /\ count_file_loc Sample.cwd Sample.fs (py "/home/u/proj/flaky.py") = 1%Z
  /\ count_file_loc Sample.cwd Sample.fs (py "/home/u/proj/flaky.py") <> 0%Z
  /\ match count_loc Sample.cwd Sample.fs (py "proj") true None false with
     | PerFile d _ => d !! py "/home/u/proj/flaky.py"
     | Total _ => None
     end = Some 1%Z.
Proof.
  split; [reflexivity|].
  split; [vm_compute; tauto|].
  split; [reflexivity|].
  split; [discriminate|].
  vm_compute. reflexivity.
Qed.

(** C7, amended.  For a file on which opening or reading fails with an I/O
    error, [count_file_loc] returns, without raising, the number of code
    lines among the lines read before the failure: 0 when the file cannot
    be opened.  [count_loc] completes the scan and keeps the file in the
    per-file mapping, bound to that count. *)
Theorem count_file_loc_io_failure (cwd : str) (fs : node) (root_path : str)
        (ignore_patterns : option (list str)) (include_hidden : bool)
        (path : str) :
  io_fails (open cwd fs path) = true ->
  In path (iter_python_files cwd fs root_path ignore_patterns include_hidden) ->
  count_file_loc cwd fs path
  = Z.of_nat (length (List.filter is_code_line (delivered (open cwd fs path))))
  /\ (open cwd fs path = OpenError -> count_file_loc cwd fs path = 0%Z)
  /\ exists (d : gmap (list N) Z) (total : Z),
       count_loc cwd fs root_path true ignore_patterns include_hidden
       = PerFile d total
       /\ d !! path = Some (count_file_loc cwd fs path).
Proof.
  intros _ Hin. split; [|split].
  - unfold count_file_loc. destruct (open cwd fs path) as [|fh]; simpl.
    + reflexivity.
    + rewrite count_lines_filter. lia.
  - unfold count_file_loc. intros ->. reflexivity.
  - rewrite count_loc_unfold. cbv zeta. eexists _, _. split; [reflexivity|].
    apply (fold_insert_lookup cwd fs _ ∅ path), Hin.
Qed.

Lemma count_file_loc_io_failure_witness :
  io_fails (open Sample.cwd Sample.fs (py "/home/u/proj/locked.py")) = true
  /\ count_file_loc Sample.cwd Sample.fs (py "/home/u/proj/locked.py") = 0%Z.
Proof.
  split; [reflexivity|].
  assert (In (py "/home/u/proj/locked.py")
             (iter_python_files Sample.cwd Sample.fs (py "proj") None false))
    as Hin by (vm_compute; tauto).
  destruct (count_file_loc_io_failure Sample.cwd Sample.fs (py "proj") None
              false (py "/home/u/proj/locked.py") eq_refl Hin)
    as (_ & Hzero & _).
  apply Hzero. reflexivity.
Defined.

(** C8.  Reordering the pattern list changes nothing: [should_ignore]
    returns the same boolean for every permutation of the list, and so
    [iter_python_files] yields the same paths and [count_loc] returns the
    same mapping and total. *)
Theorem ignore_patterns_order_irrelevant (cwd : str) (fs : node)
        (patterns patterns' : list str) (path root_path : str)
        (per_file include_hidden : bool) :
  Permutation patterns patterns' ->
  should_ignore cwd path (Some patterns) root_path include_hidden
  = should_ignore cwd path (Some patterns') root_path include_hidden
  /\ iter_python_files cwd fs root_path (Some patterns) include_hidden
     = iter_python_files cwd fs root_path (Some patterns') include_hidden
  /\ count_loc cwd fs root_path per_file (Some patterns) include_hidden
     = count_loc cwd fs root_path per_file (Some patterns') include_hidden.
Proof.
  intros Hperm.
  assert (forall p, In p (patterns_of (Some patterns))
                    <-> In p (patterns_of (Some patterns'))) as Hsame.
  { intros p. simpl. split; apply Permutation_in;
      [exact Hperm | symmetry; exact Hperm]. }
  assert (iter_python_files cwd fs root_path (Some patterns) include_hidden
          = iter_python_files cwd fs root_path (Some patterns') include_hidden)
    as Hiter.
  { rewrite !iter_python_files_unfold.
    destruct (scandir cwd fs (abspath cwd root_path)); [|reflexivity].
    apply walk_ext. exact Hsame. }
  split; [|split].
  - apply should_ignore_ext, Hsame.
  - exact Hiter.
  - rewrite !count_loc_unfold. cbv zeta. rewrite Hiter. reflexivity.
Qed.

Lemma ignore_patterns_order_irrelevant_witness :
  iter_python_files Sample.cwd Sample.fs (py "proj")
                    (Some [py "sub"; py "a.*"]) false
  = iter_python_files Sample.cwd Sample.fs (py "proj")
                      (Some [py "a.*"; py "sub"]) false.
Proof.
  refine (proj1 (proj2 (ignore_patterns_order_irrelevant
                          Sample.cwd Sample.fs [py "sub"; py "a.*"]
                          [py "a.*"; py "sub"] (py "proj/sub") (py "proj")
                          true false _))).
  apply perm_swap.
Defined.

(** C9.  The total [count_loc] returns with [per_file=False] is the total
    of the pair it returns with [per_file=True]: the flag selects the shape
    of the result and nothing else. *)
Theorem count_loc_total_agrees (cwd : str) (fs : node) (root_path : str)
        (ignore_patterns : option (list str)) (include_hidden : bool) :
  exists (d : gmap (list N) Z) (total : Z),
    count_loc cwd fs root_path true ignore_patterns include_hidden
    = PerFile d total
    /\ count_loc cwd fs root_path false ignore_patterns include_hidden
       = Total total.
Proof.
  rewrite !count_loc_unfold. cbv zeta. eexists _, _.
  split; reflexivity.
Qed.




(** * Further properties of the code *)

(** ** The line classifier *)

Lemma first_non_space_app_some (a b : str) (c : char) :
  first_non_space a = Some c -> first_non_space (a ++ b) = Some c.
Proof.
  unfold first_non_space. induction a as [|x a IH]; simpl; [discriminate|].
  destruct (negb (isspace x)); [intros H; exact H | exact IH].
Qed.

Lemma first_non_space_app_none (a b : str) :
  first_non_space a = None -> first_non_space (a ++ b) = first_non_space b.
Proof.
  unfold first_non_space. induction a as [|x a IH]; simpl; [reflexivity|].
  destruct (negb (isspace x)); [discriminate | exact IH].
Qed.

Lemma first_non_space_spaces (s : str) :
  forallb isspace s = true -> first_non_space s = None.
Proof.
  unfold first_non_space. induction s as [|x s IH]; simpl; [reflexivity|].
  intros [Hx Hs]%andb_true_iff. rewrite Hx. simpl. apply IH, Hs.
Qed.

(** X1.  [is_code_line] is true exactly when the line has a character
    that is not whitespace and the first such character is not ['#'].
    Once the two early returns are passed, [code_part] of line 76 is never
    empty: what follows a later ['#'] plays no part in the result. *)
Theorem is_code_line_first_character (line : str) :
  is_code_line line = true <->
  exists c, first_non_space line = Some c /\ c <> chr_hash.
Proof.
  rewrite is_code_line_first.
  destruct (first_non_space line) as [c|]; split.
  - intros H. exists c. split; [reflexivity|].
    intros ->. discriminate.
  - intros (c' & [= <-] & Hc). apply negb_true_iff, N.eqb_neq, Hc.
  - discriminate.
  - intros (c & [=] & _).
Qed.

(** X2.  Whitespace around a line does not change its classification:
    indentation and the line terminator are irrelevant, and a line is
    classified like its stripped form. *)
Theorem is_code_line_padding (before line after : str) :
  forallb isspace before = true ->
  forallb isspace after = true ->
  is_code_line (before ++ line ++ after) = is_code_line line
  /\ is_code_line (strip line) = is_code_line line.
Proof.
  intros Hb Ha. rewrite !is_code_line_first. split.
  - rewrite (first_non_space_app_none before _ (first_non_space_spaces _ Hb)).
    destruct (first_non_space line) as [c|] eqn:E.
    + rewrite (first_non_space_app_some line after c E). reflexivity.
    + rewrite (first_non_space_app_none line after E).
      rewrite (first_non_space_spaces after Ha). reflexivity.
  - destruct (first_non_space line) as [c|] eqn:E.
    + destruct (strip_first_some line c E) as (r & -> & Hc).
      unfold first_non_space. simpl. rewrite Hc. reflexivity.
    + rewrite (strip_first_none line E). reflexivity.
Qed.

Lemma is_code_line_padding_witness :
  is_code_line (py "    " ++ py "return x" ++ [10%N])
  = is_code_line (py "return x").
Proof.
  apply (is_code_line_padding (py "    ") (py "return x") [10%N]);
    reflexivity.
Defined.

(** X3.  Appending an inline comment to a line never changes its
    classification: code stays code, and a blank or comment line stays
    what it was. *)
Theorem is_code_line_inline_comment (line comment : str) :
  is_code_line (line ++ chr_hash :: comment) = is_code_line line.
Proof.
  rewrite !is_code_line_first.
  destruct (first_non_space line) as [c|] eqn:E.
  - rewrite (first_non_space_app_some line _ c E). reflexivity.
  - rewrite (first_non_space_app_none line _ E). reflexivity.
Qed.

(** ** The file counter *)

Lemma filter_length_le {A} (f : A -> bool) (l : list A) :
  length (List.filter f l) <= length l.
Proof.
  induction l as [|x l IH]; simpl; [lia|].
  destruct (f x); simpl; lia.
Qed.

(** X4.  [count_file_loc] lies between 0 and the number of lines read from
    the file before the end or the failure; in particular it is 0 for a
    path that cannot be opened. *)
Theorem count_file_loc_bounds (cwd : str) (fs : node) (path : str) :
  (0 <= count_file_loc cwd fs path
   <= Z.of_nat (length (delivered (open cwd fs path))))%Z.
Proof.
  unfold count_file_loc. destruct (open cwd fs path) as [|fh]; simpl.
  - lia.
  - rewrite count_lines_filter.
    pose proof (filter_length_le is_code_line (lines_of fh)). lia.
Qed.

(** ** The ignore matcher *)

(** X5.  The pattern list acts as a disjunction: a path is ignored under
    two lists put together exactly when it is ignored under one of them,
    so adding patterns never brings a path back. *)
Theorem should_ignore_app (cwd path : str) (patterns patterns' : list str)
        (root_path : str) (include_hidden : bool) :
  should_ignore cwd path (Some (patterns ++ patterns')) root_path include_hidden
  = should_ignore cwd path (Some patterns) root_path include_hidden
    || should_ignore cwd path (Some patterns') root_path include_hidden.
Proof.
  apply eq_true_iff_eq. rewrite orb_true_iff, !should_ignore_spec.
  cbn [patterns_of]. split.
  - intros [H|(p & [Hin|Hin]%in_app_iff & Hp)]; [left; left; exact H | |].
    + left. right. exists p. split; assumption.
    + right. right. exists p. split; assumption.
  - intros [[H|(p & Hin & Hp)]|[H|(p & Hin & Hp)]];
      try (left; exact H); right; exists p;
      (split; [apply in_app_iff; tauto | exact Hp]).
Qed.

(** X6.  The groups of [-i] options are flattened into one list, and the
    grouping does not matter: a path is ignored under the flattened list
    exactly when the hidden rule excludes it or one of the groups, taken
    alone, ignores it. *)
Theorem should_ignore_flatten (cwd path : str) (ignore : list (list str))
        (root_path : str) (include_hidden : bool) :
  should_ignore cwd path (Some (flatten_ignore ignore)) root_path include_hidden
  = hidden_excluded path include_hidden
    || existsb (fun group =>
                  should_ignore cwd path (Some group) root_path include_hidden)
               ignore.
Proof.
  apply eq_true_iff_eq.
  rewrite orb_true_iff, should_ignore_spec, existsb_exists.
  cbn [patterns_of]. unfold flatten_ignore. split.
  - intros [H|(p & Hin & Hp)]; [left; exact H|]. right.
    apply in_flat_map in Hin as (g & Hg & Hin).
    rewrite List.map_id in Hin. exists g. split; [exact Hg|].
    apply should_ignore_spec. right. exists p. split; assumption.
  - intros [H|(g & Hg & [H|(p & Hin & Hp)]%should_ignore_spec)];
      [left; exact H | left; exact H |].
    right. exists p. split; [|exact Hp].
    apply in_flat_map. exists g. split; [exact Hg|].
    rewrite List.map_id. exact Hin.
Qed.

(** ** Patterns without wildcards *)

Lemma glob_free_cons (c : char) (s : str) :
  glob_free (c :: s) = true ->
  (c =? chr_star)%N = false /\ (c =? chr_question)%N = false
  /\ (c =? chr_lbracket)%N = false /\ glob_free s = true.
Proof.
  unfold glob_free. simpl. intros [Hc Hs]%andb_true_iff.
  apply negb_true_iff in Hc.
  apply orb_false_iff in Hc as [Hc H3]. apply orb_false_iff in Hc as [H1 H2].
  auto.
Qed.

Lemma translate_literal (pattern : str) :
  glob_free pattern = true ->
  fnmatch.translate pattern = List.map fnmatch.LIT pattern.
Proof.
  unfold fnmatch.translate.
  induction pattern as [|c r IH]; intros H; [reflexivity|].
  apply glob_free_cons in H as (H1 & H2 & H3 & Hr).
  cbn [fnmatch.translate_from]. rewrite H1, H2, H3, (IH Hr). reflexivity.
Qed.

Lemma match_literal (pattern : str) :
  forall name,
    fnmatch.match_tokens (List.map fnmatch.LIT pattern) name = true <->
    name = pattern.
Proof.
  induction pattern as [|c r IH]; intros [|d name]; simpl.
  - tauto.
  - split; discriminate.
  - split; discriminate.
  - rewrite andb_true_iff, IH, N.eqb_eq. split.
    + intros [-> ->]. reflexivity.
    + intros [= -> ->]. tauto.
Qed.

(** A pattern without wildcards matches itself and nothing else. *)
Lemma fnmatch_literal (name pattern : str) :
  glob_free pattern = true ->
  (fnmatch.fnmatch name pattern = true <-> name = pattern).
Proof.
  intros H. unfold fnmatch.fnmatch, fnmatch.fnmatchcase, fnmatch.normcase.
  rewrite (translate_literal pattern H). apply match_literal.
Qed.

(** X7.  A path is ignored as soon as the list holds, spelled out and
    free of ['*'], ['?'] and ['['], its basename, its absolute form or its
    form relative to the root. *)
Theorem should_ignore_literal (cwd path : str) (patterns : list str)
        (root_path : str) (include_hidden : bool) (target : str) :
  path_form cwd path root_path target ->
  glob_free target = true ->
  In target patterns ->
  should_ignore cwd path (Some patterns) root_path include_hidden = true.
Proof.
  intros Hform Hfree Hin. apply should_ignore_spec. right.
  exists target. split; [exact Hin|].
  exists target, target. split; [constructor|]. split; [exact Hform|].
  apply fnmatch_glob, fnmatch_literal; [exact Hfree | reflexivity].
Qed.

Lemma should_ignore_literal_witness :
  should_ignore Sample.cwd (py "/home/u/proj/sub") (Some [py "x"; py "sub"])
                (py "proj") false = true.
Proof.
  apply (should_ignore_literal Sample.cwd (py "/home/u/proj/sub")
           [py "x"; py "sub"] (py "proj") false (py "sub")).
  - apply form_basename.
  - reflexivity.
  - right. left. reflexivity.
Defined.

(** ** Ignoring more yields less *)

(** When everything the first setting ignores is ignored by the second
    too, the second walk yields a sublist of the first: the same order,
    with paths left out. *)
Lemma walk_sublist (cwd root_path : str) (pats pats' : option (list str))
      (hidden hidden' : bool) (n : node) :
  (forall p, should_ignore cwd p pats root_path hidden = true ->
             should_ignore cwd p pats' root_path hidden' = true) ->
  forall dirpath,
    walk cwd root_path pats' hidden' dirpath n
    `sublist_of` walk cwd root_path pats hidden dirpath n.
Proof.
  intros Hmore.
  induction n as [contents|entries IH] using node_nested_ind; intros dirpath.
  - constructor.
  - rewrite !walk_dir_eq. apply sublist_app.
    + clear IH.
      induction entries as [|[name [c|sub]] es IHes]; cbn [walk_files].
      * constructor.
      * apply sublist_app; [|exact IHes].
        destruct (should_ignore cwd (join dirpath name) pats root_path hidden)
          eqn:E.
        -- rewrite (Hmore _ E). constructor.
        -- destruct (should_ignore cwd (join dirpath name) pats' root_path
                                   hidden');
             [apply sublist_nil_l | reflexivity].
      * exact IHes.
    + induction entries as [|[name [c|sub]] es IHes]; cbn [walk_dirs].
      * constructor.
      * apply List.Forall_cons_iff in IH as [_ IH]. apply IHes, IH.
      * apply List.Forall_cons_iff in IH as [Hsub IH]. cbn [snd] in Hsub.
        apply sublist_app; [|apply IHes, IH].
        destruct (should_ignore cwd (join dirpath name) pats root_path hidden)
          eqn:E.
        -- rewrite (Hmore _ E). constructor.
        -- destruct (should_ignore cwd (join dirpath name) pats' root_path
                                   hidden');
             [apply sublist_nil_l | apply Hsub].
Qed.

Lemma iter_python_files_sublist (cwd : str) (fs : node) (root_path : str)
      (pats pats' : option (list str)) (hidden hidden' : bool) :
  (forall p,
      should_ignore cwd p (Some (patterns_of pats)) (abspath cwd root_path)
                    hidden = true ->
      should_ignore cwd p (Some (patterns_of pats')) (abspath cwd root_path)
                    hidden' = true) ->
  iter_python_files cwd fs root_path pats' hidden'
  `sublist_of` iter_python_files cwd fs root_path pats hidden.
Proof.
  intros Hmore. rewrite !iter_python_files_unfold.
  destruct (scandir cwd fs (abspath cwd root_path)); [|constructor].
  apply walk_sublist, Hmore.
Qed.

(** Counts are not negative, so a sublist of the paths has a smaller sum. *)
Lemma sum_counts_sublist (cwd : str) (fs : node) (l l' : list str) :
  l' `sublist_of` l ->
  (fold_right Z.add 0 (List.map (count_file_loc cwd fs) l')
   <= fold_right Z.add 0 (List.map (count_file_loc cwd fs) l))%Z.
Proof.
  induction 1 as [|x l1 l2 _ IH|x l1 l2 _ IH]; simpl.
  - lia.
  - lia.
  - pose proof (count_file_loc_nonneg cwd fs x). lia.
Qed.

Lemma total_of_count_loc (cwd : str) (fs : node) (root_path : str)
      (per_file : bool) (pats : option (list str)) (hidden : bool) :
  total_of (count_loc cwd fs root_path per_file pats hidden)
  = fold_right Z.add 0%Z
      (List.map (count_file_loc cwd fs)
                (iter_python_files cwd fs root_path pats hidden)).
Proof. rewrite count_loc_unfold. destruct per_file; reflexivity. Qed.

(** X8.  Hidden files are only ever added: what is yielded without them
    is, in the same order, part of what is yielded with
    [include_hidden=True], and the total does not go down. *)
Theorem include_hidden_only_adds (cwd : str) (fs : node) (root_path : str)
        (ignore_patterns : option (list str)) (per_file : bool) :
  iter_python_files cwd fs root_path ignore_patterns false
  `sublist_of` iter_python_files cwd fs root_path ignore_patterns true
  /\ (total_of (count_loc cwd fs root_path per_file ignore_patterns false)
      <= total_of (count_loc cwd fs root_path per_file ignore_patterns true))%Z.
Proof.
  assert (iter_python_files cwd fs root_path ignore_patterns false
          `sublist_of` iter_python_files cwd fs root_path ignore_patterns true)
    as Hsub.
  { apply iter_python_files_sublist. intros p.
    rewrite !should_ignore_spec. intros [H|H]; [discriminate | right; exact H]. }
  split; [exact Hsub|].
  rewrite !total_of_count_loc. apply sum_counts_sublist, Hsub.
Qed.

(** X9.  More patterns, fewer files: with patterns added to the list,
    what is yielded is, in the same order, part of what was yielded
    before, and the total does not go up. *)
Theorem more_patterns_fewer_files (cwd : str) (fs : node) (root_path : str)
        (patterns added : list str) (include_hidden per_file : bool) :
  iter_python_files cwd fs root_path (Some (patterns ++ added)) include_hidden
  `sublist_of` iter_python_files cwd fs root_path (Some patterns) include_hidden
  /\ (total_of (count_loc cwd fs root_path per_file (Some (patterns ++ added))
                          include_hidden)
      <= total_of (count_loc cwd fs root_path per_file (Some patterns)
                             include_hidden))%Z.
Proof.
  assert (iter_python_files cwd fs root_path (Some (patterns ++ added))
                            include_hidden
          `sublist_of` iter_python_files cwd fs root_path (Some patterns)
                                         include_hidden) as Hsub.
  { apply iter_python_files_sublist. intros p.
    rewrite !should_ignore_spec. cbn [patterns_of].
    intros [H|(q & Hin & Hq)]; [left; exact H | right].
    exists q. split; [apply in_app_iff; left; exact Hin | exact Hq]. }
  split; [exact Hsub|].
  rewrite !total_of_count_loc. apply sum_counts_sublist, Hsub.
Qed.

(** ** What the walker yields *)

Lemma startswith_app (a b s : str) :
  startswith a s = true -> startswith (a ++ b) s = true.
Proof.
  revert a. induction s as [|c s IH]; intros [|x a]; simpl.
  - intros _. destruct b; reflexivity.
  - reflexivity.
  - discriminate.
  - intros [Hc Hs]%andb_true_iff. rewrite Hc. simpl. apply IH, Hs.
Qed.

Lemma endswith_app (a name s : str) :
  endswith name s = true -> endswith (a ++ name) s = true.
Proof.
  unfold endswith. intros H. rewrite rev_app_distr. apply startswith_app, H.
Qed.

Lemma endswith_join (path name s : str) :
  endswith name s = true -> endswith (join path name) s = true.
Proof.
  intros H. unfold join.
  destruct (startswith name sep); [exact H|].
  destruct (negb (truthy path) || endswith path sep).
  - apply endswith_app, H.
  - rewrite app_assoc. apply endswith_app, H.
Qed.

Lemma join_all_snoc (path : str) (ds : list str) (name : str) :
  join_all path (ds ++ [name]) = join (join_all path ds) name.
Proof. unfold join_all. rewrite fold_left_app. reflexivity. Qed.

(** X10.  Every path [iter_python_files] yields ends with [.py], is not
    ignored by [should_ignore], and is not excluded by the hidden rule:
    with [include_hidden=False] no yielded file has a name that starts
    with a dot. *)
Theorem yielded_paths_are_python (cwd : str) (fs : node) (root_path : str)
        (ignore_patterns : option (list str)) (include_hidden : bool)
        (p : str) :
  In p (iter_python_files cwd fs root_path ignore_patterns include_hidden) ->
  endswith p suffix_py = true
  /\ should_ignore cwd p (Some (patterns_of ignore_patterns))
                   (abspath cwd root_path) include_hidden = false
  /\ hidden_excluded p include_hidden = false.
Proof.
  rewrite iter_python_files_unfold.
  destruct (scandir cwd fs (abspath cwd root_path)) as [entries|];
    [|intros []].
  intros Hin. apply (walk_in cwd _ _ _ (Dir entries)) in Hin.
  destruct Hin as (ds & name & c & below & _ & _ & -> & _ & Hi & He).
  split; [|split; [exact Hi|]].
  - rewrite join_all_snoc. apply endswith_join, He.
  - destruct (hidden_excluded _ include_hidden) eqn:Hh; [|reflexivity].
    rewrite <- Hi. symmetry. apply should_ignore_spec. left. exact Hh.
Qed.

Lemma yielded_paths_are_python_witness :
  endswith (py "/home/u/proj/sub/b.py") suffix_py = true
  /\ hidden_excluded (py "/home/u/proj/sub/b.py") false = false.
Proof.
  assert (In (py "/home/u/proj/sub/b.py")
             (iter_python_files Sample.cwd Sample.fs (py "proj") None false))
    as Hin by (vm_compute; tauto).
  destruct (yielded_paths_are_python Sample.cwd Sample.fs (py "proj") None
              false _ Hin) as (He & _ & Hh).
  split; assumption.
Defined.

(** X11.  The file [count_loc] counts under a yielded path is the file the
    walker saw: the path, built with [join] from the root, opens the very
    file it was yielded for, and its count is the number of code lines
    among the lines that file delivers. *)
Theorem yielded_path_counts_its_file (cwd : str) (fs : node)
        (root_path : str) (ignore_patterns : option (list str))
        (include_hidden : bool) (p : str) :
  isabs cwd = true ->
  wf_node fs = true ->
  In p (iter_python_files cwd fs root_path ignore_patterns include_hidden) ->
  exists entries ds below name contents,
    scandir cwd fs (abspath cwd root_path) = Some entries
    /\ subdir entries ds below
    /\ In (name, File contents) below
    /\ p = join_all (abspath cwd root_path) (ds ++ [name])
    /\ open cwd fs p = contents
    /\ count_file_loc cwd fs p
       = Z.of_nat (length (List.filter is_code_line (delivered contents))).
Proof.
  intros Hcwd Hwf Hin.
  destruct (open_yielded cwd fs root_path ignore_patterns include_hidden p
              Hcwd Hwf Hin)
    as (entries & ds & below & name & contents & Hs & Hsub & Hf & Hp & Ho).
  exists entries, ds, below, name, contents.
  split; [exact Hs|]. split; [exact Hsub|]. split; [exact Hf|].
  split; [exact Hp|]. split; [exact Ho|].
  unfold count_file_loc. rewrite Ho. destruct contents as [|fh]; simpl.
  - reflexivity.
  - rewrite count_lines_filter. lia.
Qed.

Lemma yielded_path_counts_its_file_witness :
  isabs Sample.cwd = true
  /\ wf_node Sample.fs = true
  /\ open Sample.cwd Sample.fs (py "/home/u/proj/sub/b.py")
     = Opened (Sample.iter_of [py "print(1)" ++ Sample.nl]).
Proof.
  split; [reflexivity|]. split; [reflexivity|].
  assert (In (py "/home/u/proj/sub/b.py")
             (iter_python_files Sample.cwd Sample.fs (py "proj") None false))
    as Hin by (vm_compute; tauto).
  destruct (yielded_path_counts_its_file Sample.cwd Sample.fs (py "proj")
              None false _ eq_refl eq_refl Hin)
    as (entries & ds & below & name & contents & _ & _ & _ & _ & Ho & _).
  reflexivity.
Defined.

(** ** The aggregator *)

Lemma count_le_sum (cwd : str) (fs : node) (p : str) (paths : list str) :
  In p paths ->
  (count_file_loc cwd fs p
   <= fold_right Z.add 0 (List.map (count_file_loc cwd fs) paths))%Z.
Proof.
  induction paths as [|q paths IH]; intros []; simpl.
  - subst q.
    assert (0 <= fold_right Z.add 0 (List.map (count_file_loc cwd fs) paths))%Z.
    { clear. induction paths as [|x l IHl]; simpl; [lia|].
      pose proof (count_file_loc_nonneg cwd fs x). lia. }
    lia.
  - pose proof (count_file_loc_nonneg cwd fs q). specialize (IH H). lia.
Qed.

(** X12.  Every count in the per-file mapping lies between 0 and the
    total, and only yielded paths are keys. *)
Theorem per_file_counts_bounded (cwd : str) (fs : node) (root_path : str)
        (ignore_patterns : option (list str)) (include_hidden : bool)
        (d : gmap (list N) Z) (total : Z) (p : list N) (v : Z) :
  count_loc cwd fs root_path true ignore_patterns include_hidden
  = PerFile d total ->
  d !! p = Some v ->
  (0 <= v <= total)%Z
  /\ In p (iter_python_files cwd fs root_path ignore_patterns include_hidden).
Proof.
  rewrite count_loc_unfold. cbv zeta. intros [= <- <-] Hv.
  destruct (fold_insert_lookup cwd fs
              (iter_python_files cwd fs root_path ignore_patterns
                                 include_hidden) ∅ p) as [Hin Hout].
  destruct (decide (p ∈ iter_python_files cwd fs root_path ignore_patterns
                                          include_hidden)) as [Hp|Hp];
    rewrite list_elem_of_In in Hp.
  - rewrite (Hin Hp) in Hv. injection Hv as <-.
    split; [|exact Hp]. split.
    + apply count_file_loc_nonneg.
    + apply count_le_sum, Hp.
  - rewrite (Hout Hp), lookup_empty in Hv. discriminate.
Qed.

Lemma per_file_counts_bounded_witness :
  (0 <= 2 <= 4)%Z
  /\ In (py "/home/u/proj/a.py")
        (iter_python_files Sample.cwd Sample.fs (py "proj") None false).
Proof.
  destruct (count_loc Sample.cwd Sample.fs (py "proj") true None false)
    as [t|d t] eqn:E; [vm_compute in E; discriminate|].
  assert (t = 4%Z) as -> by (vm_compute in E; congruence).
  apply (per_file_counts_bounded Sample.cwd Sample.fs (py "proj") None false
           d 4 (py "/home/u/proj/a.py") 2 E).
  assert (match count_loc Sample.cwd Sample.fs (py "proj") true None false with
          | PerFile d' _ => d' !! py "/home/u/proj/a.py"
          | Total _ => None
          end = Some 2%Z) as H by (vm_compute; reflexivity).
  rewrite E in H. exact H.
Defined.

(** ** Normal forms of absolute paths *)

Lemma valid_name_plain (name : list N) : valid_name name = true -> plain name.
Proof.
  intros H. split; [apply valid_name_nonempty, H | apply valid_name_no_slash, H].
Qed.

Lemma str_eqb_eq (a b : list N) : str_eqb a b = true <-> a = b.
Proof. unfold str_eqb. apply bool_decide_eq_true. Qed.

Lemma str_eqb_neq (a b : list N) : str_eqb a b = false <-> a <> b.
Proof. unfold str_eqb. apply bool_decide_eq_false. Qed.

Lemma valid_name_iff (name : list N) :
  valid_name name = true <->
  plain name /\ name <> curdir /\ name <> pardir.
Proof.
  unfold valid_name, plain.
  rewrite !andb_true_iff, !negb_true_iff, !str_eqb_neq, contains_false_iff.
  destruct name; simpl; intuition congruence.
Qed.

Lemma split_pieces_plain (c : N) (s : list N) :
  Forall (fun piece => ~ In c piece) (split c (-1) s).
Proof.
  induction s as [|x s IH]; [repeat constructor; intros []|].
  rewrite split_cons. destruct (N.eqb_spec x c) as [->|Hx].
  - constructor; [intros [] | exact IH].
  - destruct (split c (-1) s) as [|piece pieces]; [repeat constructor|].
    + intros [H|[]]. congruence.
    + apply List.Forall_cons_iff in IH as [Hp Hps].
      constructor; [|exact Hps]. intros [H|H]; [congruence | contradiction].
Qed.

(** With a leading slash, the loop of [normpath] keeps valid names only. *)
Lemma normpath_comps_valid (k : nat) (comps : list (list N)) :
  k <> 0 ->
  Forall (fun c => ~ In chr_slash c) comps ->
  forall acc,
    Forall (fun c => valid_name c = true) acc ->
    Forall (fun c => valid_name c = true) (normpath_comps k acc comps).
Proof.
  intros Hk. induction 1 as [|comp comps Hc _ IH]; intros acc Hacc; simpl.
  - apply List.Forall_rev, Hacc.
  - destruct (str_eqb comp [] || str_eqb comp curdir) eqn:E1; [apply IH, Hacc|].
    apply orb_false_iff in E1 as [He Hd].
    apply str_eqb_neq in He, Hd.
    destruct (str_eqb comp pardir) eqn:Ep; simpl.
    + assert ((k =? 0)%nat = false) as -> by (apply Nat.eqb_neq, Hk). simpl.
      destruct acc as [|last acc'].
      * apply IH, Hacc.
      * apply List.Forall_cons_iff in Hacc as [Hl Hacc'].
        assert (str_eqb last pardir = false) as ->.
        { apply str_eqb_neq. apply valid_name_iff in Hl. tauto. }
        apply IH, Hacc'.
    + apply str_eqb_neq in Ep. apply IH. constructor; [|exact Hacc].
      apply valid_name_iff. unfold plain. tauto.
Qed.

(** On valid names the loop of [normpath] changes nothing. *)
Lemma normpath_comps_id (k : nat) (comps : list (list N)) :
  Forall (fun c => valid_name c = true) comps ->
  forall acc, normpath_comps k acc comps = rev acc ++ comps.
Proof.
  induction 1 as [|comp comps Hc _ IH]; intros acc; simpl.
  - rewrite app_nil_r. reflexivity.
  - apply valid_name_iff in Hc as ([Hne _] & Hd & Hp).
    apply str_eqb_neq in Hne, Hd, Hp. rewrite Hne, Hd, Hp. simpl.
    rewrite IH. simpl. rewrite <- app_assoc. reflexivity.
Qed.

Lemma normpath_comps_skip_empty (k j : nat) (acc comps : list (list N)) :
  normpath_comps k acc (List.repeat [] j ++ comps) = normpath_comps k acc comps.
Proof. induction j as [|j IH]; simpl; [reflexivity | exact IH]. Qed.

Lemma join_with_cons (c : N) (p : list N) (rest : list (list N)) :
  rest <> [] -> join_with c (p :: rest) = p ++ c :: join_with c rest.
Proof. destruct rest; [contradiction | reflexivity]. Qed.

Lemma split_join_with (comps : list (list N)) :
  comps <> [] ->
  Forall (fun c => ~ In chr_slash c) comps ->
  split chr_slash (-1) (join_with chr_slash comps) = comps.
Proof.
  induction comps as [|p rest IH]; intros Hne Hall; [contradiction|].
  apply List.Forall_cons_iff in Hall as [Hp Hrest].
  destruct rest as [|q rest].
  - simpl. apply split_without_sep, Hp.
  - rewrite join_with_cons by discriminate.
    rewrite split_app_sep, (split_without_sep _ _ Hp), IH;
      [reflexivity | discriminate | exact Hrest].
Qed.

Lemma split_slashes (j : nat) (s : list N) :
  split chr_slash (-1) (List.repeat chr_slash j ++ s)
  = List.repeat [] j ++ split chr_slash (-1) s.
Proof.
  induction j as [|j IH]; simpl List.repeat; cbn [app]; [reflexivity|].
  rewrite split_cons, N.eqb_refl, IH. reflexivity.
Qed.

Lemma normpath_comps_split_join (k : nat) (comps : list (list N)) :
  Forall (fun c => valid_name c = true) comps ->
  normpath_comps k [] (split chr_slash (-1) (join_with chr_slash comps)) = comps.
Proof.
  intros Hv. destruct comps as [|p rest] eqn:E.
  - reflexivity.
  - rewrite split_join_with.
    + rewrite normpath_comps_id by exact Hv. reflexivity.
    + discriminate.
    + eapply List.Forall_impl; [|exact Hv]. intros c. apply valid_name_no_slash.
Qed.

Lemma join_with_head (comps : list (list N)) :
  Forall (fun c => valid_name c = true) comps ->
  startswith (join_with chr_slash comps) sep = false.
Proof.
  intros Hv. destruct comps as [|p rest]; [reflexivity|].
  apply List.Forall_cons_iff in Hv as [Hp _].
  apply valid_name_iff in Hp as ([Hne Hns] & _).
  destruct p as [|x p]; [contradiction|].
  assert (x <> chr_slash) as Hx by (intros ->; apply Hns; left; reflexivity).
  destruct rest; simpl; rewrite ?startswith_sep_cons;
    apply N.eqb_neq in Hx; rewrite ?Hx; reflexivity.
Qed.

Lemma normpath_normal_form (k : nat) (comps : list (list N)) :
  k = 1 \/ k = 2 ->
  Forall (fun c => valid_name c = true) comps ->
  normpath (normal_form k comps) = normal_form k comps.
Proof.
  intros Hk Hv. pose proof (join_with_head comps Hv) as Hhead.
  unfold normpath, normal_form.
  set (J := join_with chr_slash comps) in *.
  assert (forall j, List.repeat chr_slash (S j) ++ J
                    = chr_slash :: (List.repeat chr_slash j ++ J)) as Hrep
      by reflexivity.
  assert (str_eqb (List.repeat chr_slash k ++ J) [] = false) as ->.
  { apply str_eqb_neq. destruct Hk as [-> | ->]; discriminate. }
  assert ((if startswith (List.repeat chr_slash k ++ J) sep
           then if startswith (List.repeat chr_slash k ++ J) (sep ++ sep)
                   && negb (startswith (List.repeat chr_slash k ++ J)
                                       (sep ++ sep ++ sep))
                then 2 else 1
           else 0) = k) as ->.
  { destruct Hk as [-> | ->]; simpl.
    - destruct J as [|x J']; [reflexivity|].
      rewrite startswith_sep_cons in Hhead. simpl. rewrite Hhead. reflexivity.
    - destruct J as [|x J']; [reflexivity|].
      rewrite startswith_sep_cons in Hhead. simpl. rewrite Hhead. reflexivity. }
  rewrite split_slashes, normpath_comps_skip_empty.
  unfold J. rewrite (normpath_comps_split_join k comps Hv).
  destruct Hk as [-> | ->]; reflexivity.
Qed.

Lemma normpath_absolute (p : list N) :
  isabs p = true ->
  exists k comps,
    (k = 1 \/ k = 2)
    /\ Forall (fun c => valid_name c = true) comps
    /\ normpath p = normal_form k comps.
Proof.
  intros Hp. destruct (isabs_cons p Hp) as [r ->].
  unfold normpath. unfold str_eqb at 1.
  rewrite bool_decide_eq_false_2 by discriminate.
  unfold isabs in Hp. rewrite Hp.
  set (k := if startswith (chr_slash :: r) (sep ++ sep)
               && negb (startswith (chr_slash :: r) (sep ++ sep ++ sep))
            then 2 else 1).
  assert (k = 1 \/ k = 2) as Hk by (unfold k; destruct (_ && _); auto).
  exists k, (normpath_comps k [] (split chr_slash (-1) (chr_slash :: r))).
  split; [exact Hk|]. split.
  - apply normpath_comps_valid; [lia | apply split_pieces_plain | constructor].
  - unfold normal_form. destruct Hk as [-> | ->]; reflexivity.
Qed.

(** [normpath] is idempotent on absolute paths, and so is [abspath]. *)
Lemma normpath_idempotent (p : list N) :
  isabs p = true -> normpath (normpath p) = normpath p.
Proof.
  intros Hp. destruct (normpath_absolute p Hp) as (k & comps & Hk & Hv & ->).
  apply normpath_normal_form; assumption.
Qed.

Lemma abspath_absolute (cwd p : list N) :
  isabs p = true -> abspath cwd p = normpath p.
Proof. intros Hp. unfold abspath. rewrite Hp. reflexivity. Qed.

Lemma abspath_normal (cwd p : list N) :
  isabs cwd = true ->
  exists k comps,
    (k = 1 \/ k = 2)
    /\ Forall (fun c => valid_name c = true) comps
    /\ abspath cwd p = normal_form k comps.
Proof.
  intros Hc. unfold abspath. destruct (isabs p) eqn:Hp; simpl.
  - apply normpath_absolute, Hp.
  - apply normpath_absolute, join_isabs, Hc.
Qed.

Lemma abspath_idempotent (cwd p : list N) :
  isabs cwd = true -> abspath cwd (abspath cwd p) = abspath cwd p.
Proof.
  intros Hc. rewrite (abspath_absolute cwd _ (abspath_isabs cwd p Hc)).
  destruct (abspath_normal cwd p Hc) as (k & comps & Hk & Hv & ->).
  apply normpath_normal_form; assumption.
Qed.

(** ** Joining onto a normal form *)

Lemma join_relative_gen (path b : list N) :
  startswith b sep = false -> join path b = dir_prefix path ++ b.
Proof.
  intros H. unfold join, dir_prefix. rewrite H.
  destruct (negb (truthy path) || endswith path sep); [reflexivity|].
  rewrite <- app_assoc. reflexivity.
Qed.

Lemma join_with_app (c : N) (a b : list (list N)) :
  a <> [] -> b <> [] ->
  join_with c (a ++ b) = join_with c a ++ c :: join_with c b.
Proof.
  intros Ha Hb. induction a as [|p a IH]; [contradiction|].
  destruct a as [|q a].
  - simpl app. rewrite join_with_cons by exact Hb. reflexivity.
  - change ((p :: q :: a) ++ b) with (p :: ((q :: a) ++ b)).
    rewrite join_with_cons by discriminate.
    rewrite IH by discriminate.
    rewrite (join_with_cons c p (q :: a)) by discriminate.
    rewrite <- app_assoc. reflexivity.
Qed.

Lemma endswith_plain (pre name : list N) :
  plain name -> endswith (pre ++ name) sep = false.
Proof. intros [Hne Hns]. apply endswith_name_false; assumption. Qed.

Lemma dir_prefix_normal_form (k : nat) (comps : list (list N)) :
  k = 1 \/ k = 2 ->
  Forall (fun c => valid_name c = true) comps ->
  forall rest,
    rest <> [] ->
    dir_prefix (normal_form k comps) ++ join_with chr_slash rest
    = normal_form k (comps ++ rest).
Proof.
  intros Hk Hv rest Hrest. unfold dir_prefix, normal_form.
  destruct (list_eq_nil_dec comps) as [->|Hne].
  - simpl. rewrite app_nil_r.
    destruct Hk as [-> | ->]; reflexivity.
  - assert (endswith (List.repeat chr_slash k ++ join_with chr_slash comps) sep
            = false) as ->.
    { destruct (exists_last Hne) as (front & l & ->).
      apply Forall_app in Hv as [_ Hl].
      apply List.Forall_cons_iff in Hl as [Hl _].
      apply valid_name_plain in Hl.
      destruct (list_eq_nil_dec front) as [->|Hf].
      - simpl. apply endswith_plain, Hl.
      - rewrite join_with_app by (assumption || discriminate). simpl.
        rewrite app_assoc.
        change (chr_slash :: l) with ([chr_slash] ++ l).
        rewrite app_assoc. apply endswith_plain, Hl. }
    assert (truthy (List.repeat chr_slash k ++ join_with chr_slash comps) = true)
      as -> by (destruct Hk as [-> | ->]; reflexivity).
    simpl. rewrite join_with_app by assumption.
    rewrite <- !app_assoc. reflexivity.
Qed.

Lemma join_normal_form (k : nat) (comps : list (list N)) (d : list N) :
  k = 1 \/ k = 2 ->
  Forall (fun c => valid_name c = true) comps ->
  valid_name d = true ->
  join (normal_form k comps) d = normal_form k (comps ++ [d]).
Proof.
  intros Hk Hv Hd.
  rewrite (join_relative _ d (valid_name_no_slash d Hd)).
  apply (dir_prefix_normal_form k comps Hk Hv [d]). discriminate.
Qed.

Lemma join_all_normal_form (k : nat) (ds : list (list N)) :
  k = 1 \/ k = 2 ->
  Forall (fun c => valid_name c = true) ds ->
  forall comps,
    Forall (fun c => valid_name c = true) comps ->
    join_all (normal_form k comps) ds = normal_form k (comps ++ ds).
Proof.
  intros Hk. unfold join_all.
  induction 1 as [|d ds Hd _ IH]; intros comps Hv; simpl.
  - rewrite app_nil_r. reflexivity.
  - rewrite (join_normal_form k comps d Hk Hv Hd). rewrite IH.
    + rewrite <- app_assoc. reflexivity.
    + apply Forall_app. split; [exact Hv | repeat constructor; exact Hd].
Qed.

(** ** Relative paths between normal forms *)

Lemma filter_split_normal_form (k : nat) (comps : list (list N)) :
  Forall (fun c => valid_name c = true) comps ->
  List.filter truthy (split chr_slash (-1) (normal_form k comps)) = comps.
Proof.
  intros Hv. unfold normal_form. rewrite split_slashes, List.filter_app.
  assert (List.filter truthy (List.repeat (@nil N) k) = []) as ->
      by (induction k; [reflexivity | assumption]).
  simpl. destruct (list_eq_nil_dec comps) as [->|Hne]; [reflexivity|].
  rewrite split_join_with.
  - induction Hv as [|c cs Hc _ IH]; [reflexivity|].
    simpl. destruct c; [discriminate|]. simpl. f_equal.
    destruct (list_eq_nil_dec cs) as [->|Hcs]; [reflexivity | apply IH, Hcs].
  - exact Hne.
  - eapply List.Forall_impl; [|exact Hv]. intros c. apply valid_name_no_slash.
Qed.

Lemma commonprefix_len_app (a b : list (list N)) :
  commonprefix_len a (a ++ b) = length a.
Proof.
  induction a as [|x a IH]; simpl; [destruct b; reflexivity|].
  unfold str_eqb. rewrite bool_decide_eq_true_2 by reflexivity.
  rewrite IH. reflexivity.
Qed.

(** Joining relative names that are not empty and have no slash. *)
Lemma join_all_plain (ds : list (list N)) :
  Forall plain ds ->
  forall a,
    a <> [] -> endswith a sep = false ->
    join_all a ds = join_with chr_slash (a :: ds).
Proof.
  unfold join_all.
  induction 1 as [|d ds Hd _ IH]; intros a Ha He; [reflexivity|].
  cbn [fold_left]. destruct Hd as [Hne Hns].
  rewrite (join_relative a d Hns). unfold dir_prefix. rewrite He.
  assert (truthy a = true) as -> by (destruct a; [contradiction | reflexivity]).
  cbn [negb orb]. rewrite IH.
  - destruct ds as [|e ds].
    + simpl. unfold sep. rewrite <- app_assoc. reflexivity.
    + rewrite (join_with_cons chr_slash _ (e :: ds)) by discriminate.
      rewrite (join_with_cons chr_slash a (d :: e :: ds)) by discriminate.
      rewrite (join_with_cons chr_slash d (e :: ds)) by discriminate.
      unfold sep. rewrite <- !app_assoc. reflexivity.
  - destruct a; [contradiction | discriminate].
  - apply endswith_name_false; assumption.
Qed.

Lemma relpath_normal_form (cwd : list N) (k : nat)
      (rc comps : list (list N)) :
  k = 1 \/ k = 2 ->
  Forall (fun c => valid_name c = true) rc ->
  Forall (fun c => valid_name c = true) comps ->
  comps <> [] ->
  relpath cwd (normal_form k (rc ++ comps)) (normal_form k rc)
  = Some (join_with chr_slash comps).
Proof.
  intros Hk Hrc Hcomps Hne.
  assert (Forall (fun c => valid_name c = true) (rc ++ comps)) as Hall
      by (apply Forall_app; split; assumption).
  assert (forall cs, isabs (normal_form k cs) = true) as Habs.
  { intros cs. unfold normal_form, isabs.
    destruct Hk as [-> | ->]; cbn [List.repeat app];
      rewrite startswith_sep_cons; reflexivity. }
  unfold relpath.
  assert (truthy (normal_form k (rc ++ comps)) = true) as ->.
  { unfold normal_form. destruct Hk as [-> | ->]; reflexivity. }
  simpl negb. cbv iota.
  rewrite !(abspath_absolute cwd _ (Habs _)).
  rewrite !normpath_normal_form by assumption.
  rewrite !filter_split_normal_form by assumption.
  rewrite commonprefix_len_app, Nat.sub_diag, skipn_app, skipn_all.
  rewrite Nat.sub_diag. simpl.
  destruct comps as [|c cs]; [contradiction|].
  apply List.Forall_cons_iff in Hcomps as [Hc Hcs].
  f_equal. apply join_all_plain.
  - eapply List.Forall_impl; [|exact Hcs]. intros x. apply valid_name_plain.
  - apply valid_name_nonempty, Hc.
  - apply (endswith_name_false [] c);
      [apply valid_name_nonempty, Hc | apply valid_name_no_slash, Hc].
Qed.

Lemma subdir_valid (entries : list (list N * node)) (ds : list (list N))
      (below : list (list N * node)) :
  subdir entries ds below ->
  wf_node (Dir entries) = true ->
  Forall (fun c => valid_name c = true) ds /\ wf_node (Dir below) = true.
Proof.
  induction 1 as [entries|entries d sub ds below Hin _ IH]; intros Hwf.
  - split; [constructor | exact Hwf].
  - destruct (wf_dir_inv entries Hwf) as [_ Hent].
    destruct (Hent d (Dir sub) Hin) as [Hv Hw].
    destruct (IH Hw) as [Hds Hb]. split; [constructor; assumption | exact Hb].
Qed.

(** ** Roots and displayed paths *)

(** X13.  The root counts through its absolute, normalised form only: a
    root spelled with [.], [..], doubled slashes or relative to the current
    directory is walked, counted and matched against exactly like
    [os.path.abspath] of it. *)
Theorem root_is_normalised (cwd : list N) (fs : node) (root_path : list N)
        (ignore_patterns : option (list (list N)))
        (include_hidden per_file : bool) (path : list N) :
  isabs cwd = true ->
  iter_python_files cwd fs (abspath cwd root_path) ignore_patterns include_hidden
  = iter_python_files cwd fs root_path ignore_patterns include_hidden
  /\ count_loc cwd fs (abspath cwd root_path) per_file ignore_patterns
               include_hidden
     = count_loc cwd fs root_path per_file ignore_patterns include_hidden
  /\ should_ignore cwd path ignore_patterns (abspath cwd root_path)
                   include_hidden
     = should_ignore cwd path ignore_patterns root_path include_hidden.
Proof.
  intros Hc.
  assert (iter_python_files cwd fs (abspath cwd root_path) ignore_patterns
                            include_hidden
          = iter_python_files cwd fs root_path ignore_patterns include_hidden)
    as Hiter.
  { rewrite !iter_python_files_unfold, (abspath_idempotent cwd root_path Hc).
    reflexivity. }
  split; [exact Hiter|]. split.
  - rewrite !count_loc_unfold. cbv zeta. rewrite Hiter. reflexivity.
  - unfold should_ignore. rewrite (abspath_idempotent cwd root_path Hc).
    reflexivity.
Qed.

Lemma root_is_normalised_witness :
  isabs Sample.cwd = true
  /\ iter_python_files Sample.cwd Sample.fs (py "/home/u/proj") None false
     = iter_python_files Sample.cwd Sample.fs (py "./proj/sub/..") None false.
Proof.
  split; [reflexivity|].
  apply (root_is_normalised Sample.cwd Sample.fs (py "./proj/sub/..") None
           false true []). reflexivity.
Defined.

(** X14.  For a yielded path, [format_path_for_display] with the absolute
    root gives the names of the directories from the root down and the
    name of the file, joined by slashes; joining the root and this
    displayed path gives the yielded path back. *)
Theorem yielded_path_display (cwd : list N) (fs : node) (root_path : list N)
        (ignore_patterns : option (list (list N))) (include_hidden : bool)
        (p : list N) :
  isabs cwd = true ->
  wf_node fs = true ->
  In p (iter_python_files cwd fs root_path ignore_patterns include_hidden) ->
  exists ds name,
    Forall (fun c => valid_name c = true) (ds ++ [name])
    /\ p = join_all (abspath cwd root_path) (ds ++ [name])
    /\ format_path_for_display cwd p (abspath cwd root_path)
       = join_with chr_slash (ds ++ [name])
    /\ join (abspath cwd root_path)
            (format_path_for_display cwd p (abspath cwd root_path)) = p.
Proof.
  intros Hc Hwf. rewrite iter_python_files_unfold.
  destruct (scandir cwd fs (abspath cwd root_path)) as [entries|] eqn:E;
    [|intros []].
  intros Hin. apply (walk_in cwd _ _ _ (Dir entries)) in Hin.
  destruct Hin as (ds & name & c & below & Hsub & Hf & -> & _).
  pose proof (scandir_wf cwd fs _ _ Hwf E) as Hw.
  destruct (subdir_valid entries ds below Hsub Hw) as [Hds Hb].
  destruct (wf_dir_inv below Hb) as [_ Hent].
  destruct (Hent name (File c) Hf) as [Hname _].
  assert (Forall (fun c => valid_name c = true) (ds ++ [name])) as Hall
      by (apply Forall_app; split; [exact Hds | repeat constructor; exact Hname]).
  exists ds, name. split; [exact Hall|]. split; [reflexivity|].
  destruct (abspath_normal cwd root_path Hc) as (k & rc & Hk & Hrc & ->).
  rewrite (join_all_normal_form k (ds ++ [name]) Hk Hall rc Hrc).
  unfold format_path_for_display.
  rewrite (relpath_normal_form cwd k rc (ds ++ [name]) Hk Hrc Hall)
    by (destruct ds; discriminate).
  split; [reflexivity|].
  rewrite join_relative_gen by (apply join_with_head, Hall).
  apply dir_prefix_normal_form; [assumption.. | destruct ds; discriminate].
Qed.

Lemma yielded_path_display_witness :
  isabs Sample.cwd = true
  /\ wf_node Sample.fs = true
  /\ format_path_for_display Sample.cwd (py "/home/u/proj/sub/b.py")
                             (abspath Sample.cwd (py "proj"))
     = py "sub/b.py".
Proof.
  split; [reflexivity|]. split; [reflexivity|].
  assert (In (py "/home/u/proj/sub/b.py")
             (iter_python_files Sample.cwd Sample.fs (py "proj") None false))
    as Hin by (vm_compute; tauto).
  destruct (yielded_path_display Sample.cwd Sample.fs (py "proj") None false
              _ eq_refl eq_refl Hin) as (ds & name & _ & _ & _ & _).
  reflexivity.
Defined.

Lemma filter_split_plain (s : list N) :
  Forall plain (List.filter truthy (split chr_slash (-1) s)).
Proof.
  pose proof (split_pieces_plain chr_slash s) as H.
  induction H as [|piece pieces Hp _ IH]; [constructor|].
  simpl. destruct piece as [|x piece]; simpl; [exact IH|].
  constructor; [|exact IH]. split; [discriminate | exact Hp].
Qed.

Lemma join_with_first (a : list N) (p : list (list N)) :
  plain a ->
  truthy (join_with chr_slash (a :: p)) = true
  /\ isabs (join_with chr_slash (a :: p)) = false.
Proof.
  intros [Hne Hns]. destruct a as [|x a]; [contradiction|].
  assert ((x =? chr_slash)%N = false) as Hx.
  { apply N.eqb_neq. intros ->. apply Hns. left. reflexivity. }
  destruct p as [|q p]; cbn [join_with app]; unfold isabs;
    rewrite startswith_sep_cons; split; (reflexivity || exact Hx).
Qed.

(** X15.  For a path that is not empty, [format_path_for_display] returns
    a path that is not empty and not absolute, whatever the root (the
    [ValueError] fallback is for the empty path only). *)
Theorem format_path_for_display_relative (cwd path root_root : list N) :
  truthy path = true ->
  truthy (format_path_for_display cwd path root_root) = true
  /\ isabs (format_path_for_display cwd path root_root) = false.
Proof.
  intros Hp. unfold format_path_for_display, relpath. rewrite Hp. simpl negb.
  cbv iota.
  set (start_list := List.filter truthy (split chr_slash (-1) (abspath cwd root_root))).
  set (path_list := List.filter truthy (split chr_slash (-1) (abspath cwd path))).
  set (i := commonprefix_len start_list path_list).
  assert (Forall plain (List.repeat pardir (length start_list - i)
                        ++ skipn i path_list)) as Hall.
  { apply Forall_app. split.
    - apply Forall_forall. intros x Hx%list_elem_of_In.
      apply repeat_spec in Hx. subst x. split; [discriminate|].
      intros [H|[H|[]]]; discriminate.
    - apply Forall_forall. intros x Hx%list_elem_of_In.
      pose proof (filter_split_plain (abspath cwd path)) as Hpl.
      rewrite List.Forall_forall in Hpl. apply Hpl.
      assert (In x (firstn i path_list ++ skipn i path_list)) as Hx'
          by (apply in_or_app; right; exact Hx).
      rewrite firstn_skipn in Hx'. exact Hx'. }
  destruct (List.repeat pardir (length start_list - i) ++ skipn i path_list)
    as [|a p]; [split; reflexivity|].
  apply List.Forall_cons_iff in Hall as [Ha Hps].
  rewrite (join_all_plain p Hps a).
  - apply join_with_first, Ha.
  - apply Ha.
  - apply (endswith_name_false [] a); apply Ha.
Qed.

Lemma format_path_for_display_relative_witness :
  truthy (py "/etc//passwd") = true
  /\ format_path_for_display Sample.cwd (py "/etc//passwd") (py "proj")
     = py "../../../etc/passwd".
Proof.
  split; [reflexivity|].
  destruct (format_path_for_display_relative Sample.cwd (py "/etc//passwd")
              (py "proj") eq_refl) as [_ _].
  reflexivity.
Defined.

(** ** The order of the summary *)

Lemma str_ltb_irrefl (a : list N) : str_ltb a a = false.
Proof.
  induction a as [|x a IH]; [reflexivity|].
  simpl. rewrite N.ltb_irrefl, N.eqb_refl, IH. reflexivity.
Qed.

Lemma str_ltb_asym (a b : list N) : str_ltb a b = true -> str_ltb b a = false.
Proof.
  revert b. induction a as [|x a IH]; intros [|y b]; simpl; try discriminate.
  - reflexivity.
  - intros [H|[He H]%andb_true_iff]%orb_true_iff.
    + apply N.ltb_lt in H.
      assert ((y <? x)%N = false) as -> by (apply N.ltb_ge; lia).
      assert ((y =? x)%N = false) as -> by (apply N.eqb_neq; lia).
      reflexivity.
    + apply N.eqb_eq in He. subst y.
      rewrite N.ltb_irrefl, N.eqb_refl. simpl. apply IH, H.
Qed.

Lemma str_ltb_total (a b : list N) :
  str_ltb a b = false -> str_ltb b a = false -> a = b.
Proof.
  revert b. induction a as [|x a IH]; intros [|y b]; simpl;
    try discriminate; [reflexivity|].
  intros [H1 H2]%orb_false_iff [H3 H4]%orb_false_iff.
  apply N.ltb_ge in H1, H3. assert (x = y) as -> by lia.
  rewrite N.eqb_refl in H2, H4. simpl in H2, H4.
  f_equal. apply IH; assumption.
Qed.

Lemma insert_sorted_perm (x : list N) (l : list (list N)) :
  Permutation (insert_sorted x l) (x :: l).
Proof.
  induction l as [|y l IH]; simpl; [reflexivity|].
  destruct (str_ltb y x); [|reflexivity].
  rewrite IH. apply perm_swap.
Qed.

Lemma sorted_perm (l : list (list N)) : Permutation (sorted l) l.
Proof.
  induction l as [|x l IH]; simpl; [reflexivity|].
  unfold sorted in *. simpl. rewrite insert_sorted_perm, IH. reflexivity.
Qed.

Lemma insert_sorted_hd (x y : list N) (l : list (list N)) :
  str_ltb y x = true ->
  HdRel (fun a b => str_ltb b a = false) y l ->
  HdRel (fun a b => str_ltb b a = false) y (insert_sorted x l).
Proof.
  intros Hyx Hl. destruct l as [|z l]; simpl.
  - constructor. apply str_ltb_asym, Hyx.
  - destruct (str_ltb z x).
    + constructor. inversion Hl; assumption.
    + constructor. apply str_ltb_asym, Hyx.
Qed.

Lemma insert_sorted_Sorted (x : list N) (l : list (list N)) :
  Sorted (fun a b => str_ltb b a = false) l ->
  Sorted (fun a b => str_ltb b a = false) (insert_sorted x l).
Proof.
  induction 1 as [|y l Hs IH Hhd]; simpl.
  - repeat constructor.
  - destruct (str_ltb y x) eqn:E.
    + constructor; [exact IH | apply insert_sorted_hd; assumption].
    + constructor; [constructor; assumption | constructor; exact E].
Qed.

Lemma sorted_Sorted (l : list (list N)) :
  Sorted (fun a b => str_ltb b a = false) (sorted l).
Proof.
  induction l as [|x l IH]; [constructor|].
  unfold sorted in *. simpl. apply insert_sorted_Sorted, IH.
Qed.

(** Distinct keys come out in strictly ascending order. *)
Lemma sorted_strict (l : list (list N)) :
  List.NoDup l -> Sorted (fun a b => str_ltb a b = true) (sorted l).
Proof.
  intros Hnd.
  assert (List.NoDup (sorted l)) as Hnd'.
  { apply NoDup_ListNoDup. rewrite sorted_perm. apply NoDup_ListNoDup, Hnd. }
  pose proof (sorted_Sorted l) as Hs.
  induction Hs as [|x s Hs IH Hhd]; [constructor|].
  apply List.NoDup_cons_iff in Hnd' as [Hx Hnd'].
  constructor; [apply IH, Hnd'|].
  destruct Hhd as [|y s' Hxy]; constructor.
  destruct (str_ltb x y) eqn:E; [reflexivity|].
  exfalso. apply Hx. left. symmetry. apply str_ltb_total; assumption.
Qed.

Lemma dict_keys_nodup (d : gmap (list N) Z) : List.NoDup (dict_keys d).
Proof. apply NoDup_ListNoDup, NoDup_fst_map_to_list. Qed.

Lemma dict_keys_in (d : gmap (list N) Z) (p : list N) :
  In p (dict_keys d) <-> is_Some (d !! p).
Proof.
  unfold dict_keys. rewrite in_map_iff. split.
  - intros ([k v] & <- & Hin). apply list_elem_of_In, elem_of_map_to_list in Hin.
    eauto.
  - intros [v Hv]. exists (p, v). split; [reflexivity|].
    apply list_elem_of_In, elem_of_map_to_list, Hv.
Qed.

(** X16.  With a per-file mapping, [log_sloc_summary] logs three header
    lines, one row per key of the mapping and three closing lines; the
    rows come in strictly ascending order of the paths, as code points
    compare, and every key has its row. *)
Theorem log_sloc_summary_rows (cwd root_abs : list N) (total : Z)
        (d : gmap (list N) Z) :
  exists keys,
    log_sloc_summary cwd root_abs total (Some d)
    = [rule_double; py "SLOC summary for " ++ root_abs; rule_single]
      ++ List.map (summary_row cwd root_abs d) keys
      ++ [rule_single; py "TOTAL SLOC: " ++ format_comma total; rule_double]
    /\ Sorted (fun a b => str_ltb a b = true) keys
    /\ (forall p, In p keys <-> is_Some (d !! p))
    /\ length keys = size d.
Proof.
  exists (sorted (dict_keys d)). split; [|split; [|split]].
  - unfold log_sloc_summary. simpl. rewrite <- !app_assoc. reflexivity.
  - apply sorted_strict, dict_keys_nodup.
  - intros p. rewrite <- dict_keys_in. split; apply Permutation_in.
    + apply sorted_perm.
    + symmetry. apply sorted_perm.
  - rewrite (Permutation_length (sorted_perm (dict_keys d))).
    unfold dict_keys. rewrite List.length_map. apply length_map_to_list.
Qed.

(** ** The entry point *)

Lemma main_fold (cwd : list N) (fs : node) (a : args) (targets : list (list N)) :
  forall overall_total logged,
    fold_left (main_step cwd fs a) targets (overall_total, logged)
    = ((overall_total
        + fold_right Z.add 0
            (List.map (fun target =>
                         total_of (count_loc cwd fs target true
                                             (Some (args_ignore a))
                                             (args_include_hidden a)))
                      targets))%Z,
       logged
       ++ flat_map (fun target =>
                      let r := count_loc cwd fs target (args_per_file a)
                                         (Some (args_ignore a))
                                         (args_include_hidden a) in
                      log_sloc_summary cwd (abspath cwd target) (total_of r)
                                       (mapping_of r))
                   targets).
Proof.
  induction targets as [|target targets IH]; intros overall_total logged.
  - simpl. rewrite app_nil_r. f_equal. lia.
  - cbn [fold_left List.map fold_right flat_map]. unfold main_step at 2.
    rewrite !(total_of_count_loc cwd fs target).
    destruct (args_per_file a) eqn:Epf.
    + rewrite IH. f_equal; [lia | rewrite <- app_assoc; reflexivity].
    + rewrite IH. f_equal; [lia|]. rewrite <- app_assoc. do 2 f_equal.
      rewrite (count_loc_unfold cwd fs target false). reflexivity.
Qed.

(** X17.  The overall total of [main] is the sum of the totals of the
    roots, each scanned on its own: it does not depend on [--per-file] or
    [--total-only], it adds up over the list of roots (a root given twice,
    or inside another, is counted twice), and it is not negative. *)
Theorem main_overall_total (cwd : list N) (fs : node)
        (paths paths' ignore : list (list N)) (per_file include_hidden : bool) :
  let run ps pf :=
    fst (main cwd fs {| args_paths := ps; args_ignore := ignore;
                        args_per_file := pf;
                        args_include_hidden := include_hidden |}) in
  run paths per_file
  = fold_right Z.add 0%Z
      (List.map (fun target =>
                   total_of (count_loc cwd fs target true (Some ignore)
                                       include_hidden))
                paths)
  /\ run paths (negb per_file) = run paths per_file
  /\ run (paths ++ paths') per_file
     = (run paths per_file + run paths' per_file)%Z
  /\ (0 <= run paths per_file)%Z.
Proof.
  intros run.
  assert (forall ps pf,
             run ps pf
             = fold_right Z.add 0%Z
                 (List.map (fun target =>
                              total_of (count_loc cwd fs target true
                                                  (Some ignore) include_hidden))
                           ps)) as Hrun.
  { intros ps pf. unfold run, main. cbn [args_paths].
    rewrite main_fold. cbn [fst args_ignore args_include_hidden]. lia. }
  split; [apply Hrun|]. split; [rewrite !Hrun; reflexivity|]. split.
  - rewrite !Hrun, List.map_app, fold_right_app.
    generalize (List.map (fun target =>
                   total_of (count_loc cwd fs target true (Some ignore)
                                       include_hidden)) paths').
    intros l'. induction (List.map _ paths) as [|x l IH]; simpl; lia.
  - rewrite Hrun. induction paths as [|t ts IH]; simpl; [lia|].
    rewrite total_of_count_loc.
    assert (0 <= fold_right Z.add 0
                   (List.map (count_file_loc cwd fs)
                             (iter_python_files cwd fs t (Some ignore)
                                                include_hidden)))%Z.
    { induction (iter_python_files _ _ _ _ _) as [|x l IHl]; simpl; [lia|].
      pose proof (count_file_loc_nonneg cwd fs x). lia. }
    lia.
Qed.


Example main_sample :
  main Sample.cwd Sample.fs
       {| args_paths := [py "proj"; py "proj/sub"];
          args_ignore := [py "locked.py"; py "flaky.*"];
          args_per_file := true;
          args_include_hidden := false |}
  = (4%Z,
     [rule_double; py "SLOC summary for /home/u/proj"; rule_single;
      py "       2 | a.py"; py "       1 | sub/b.py";
      rule_single; py "TOTAL SLOC: 3"; rule_double;
      rule_double; py "SLOC summary for /home/u/proj/sub"; rule_single;
      py "       1 | b.py";
      rule_single; py "TOTAL SLOC: 1"; rule_double;
      rule_double; py "Combined total across 2 paths: 4"; rule_double]).
Proof. vm_compute. reflexivity. Qed.

(** ** Patterns that spell a path out, and hidden directories *)

(** X19.  A pattern that spells out, without ['*'], ['?'] or ['['], the
    names from the root down to an entry, joined by slashes, makes
    [should_ignore] exclude that entry as the walker addresses it. *)
Theorem relative_pattern_excludes (cwd root_path : list N)
        (comps patterns : list (list N)) (include_hidden : bool) :
  isabs cwd = true ->
  Forall (fun c => valid_name c = true) comps ->
  comps <> [] ->
  glob_free (join_with chr_slash comps) = true ->
  In (join_with chr_slash comps) patterns ->
  should_ignore cwd (join_all (abspath cwd root_path) comps) (Some patterns)
                (abspath cwd root_path) include_hidden = true.
Proof.
  intros Hc Hv Hne Hfree Hin. apply should_ignore_spec. right.
  exists (join_with chr_slash comps). split; [exact Hin|].
  exists (join_with chr_slash comps), (join_with chr_slash comps).
  split; [constructor|]. split.
  - apply form_relative. rewrite (abspath_idempotent cwd root_path Hc).
    destruct (abspath_normal cwd root_path Hc) as (k & rc & Hk & Hrc & ->).
    rewrite (join_all_normal_form k comps Hk Hv rc Hrc).
    assert (Forall (fun c => valid_name c = true) (rc ++ comps)) as Hall
        by (apply Forall_app; split; assumption).
    assert (isabs (normal_form k (rc ++ comps)) = true) as Habs.
    { unfold normal_form, isabs.
      destruct Hk as [-> | ->]; cbn [List.repeat app];
        rewrite startswith_sep_cons; reflexivity. }
    rewrite (abspath_absolute cwd _ Habs).
    rewrite (normpath_normal_form k _ Hk Hall).
    apply relpath_normal_form; assumption.
  - apply fnmatch_glob, fnmatch_literal; [exact Hfree | reflexivity].
Qed.

Lemma relative_pattern_excludes_witness :
  should_ignore Sample.cwd (py "/home/u/proj/sub/b.py") (Some [py "sub/b.py"])
                (py "/home/u/proj") true = true.
Proof.
  apply (relative_pattern_excludes Sample.cwd (py "proj")
           [py "sub"; py "b.py"] [py "sub/b.py"] true).
  - reflexivity.
  - repeat constructor.
  - discriminate.
  - reflexivity.
  - left. reflexivity.
Defined.






